(** * terraform-provider-ldap: the [ldap_group] resource

    A shallow embedding of [internal/provider/resource_ldap_group.go]
    (create, read, update, delete and import of an LDAP group entry),
    together with the parts of go-ldap, of Go's [strings] and [strconv]
    and of the Terraform plugin SDK the resource relies on, followed by
    the properties of the attribute reconciliation it performs. *)

From Stdlib Require Import ZArith List String Ascii Lia DecimalString.
From stdpp Require Import gmap strings list fin_maps.

Set Warnings "-clear-no-such-hyp".

Open Scope string_scope.
Open Scope list_scope.
Open Scope Z_scope.

(** ** Go: errors, [strings], [strconv] *)

(** A Go [error] value.  [Errorf] keeps the format string of [fmt.Errorf]
    with its arguments; [LdapError] is go-ldap's [*ldap.Error] with its
    result code; [NumError] is [*strconv.NumError]; [OtherError] stands
    for any error of another dynamic type (a network failure, say). *)
Inductive error :=
| Errorf (format : string) (args : list fmtArg)
| LdapError (ResultCode : N) (Err : string)
| NumError (Func Num Err : string)
| OtherError (msg : string)
with fmtArg :=
| ArgString (s : string)
| ArgErrors (es : list error).

(** [strings.SplitN(s, sep, 2)] for a one-byte separator: the text before
    the first separator and, when there is one, the text after it. *)
Fixpoint SplitN2 (sep : ascii) (s : string) : list string :=
  match s with
  | EmptyString => [""]
  | String c s' =>
      if Ascii.eqb c sep then [""; s']
      else match SplitN2 sep s' with
           | p :: rest => String c p :: rest
           | [] => []
           end
  end.

(** [strings.ToUpper] on the bytes of a string: ASCII letters are mapped
    to upper case.  Go also maps letters outside ASCII; none of them has
    [C], [N] or [=] as its upper case, and the code only tests the result
    for the prefix [CN=]. *)
Definition upperByte (c : ascii) : ascii :=
  let n := nat_of_ascii c in
  if ((97 <=? n) && (n <=? 122))%nat then ascii_of_nat (n - 32) else c.

Fixpoint ToUpper (s : string) : string :=
  match s with
  | EmptyString => EmptyString
  | String c s' => String (upperByte c) (ToUpper s')
  end.

(** [strings.HasPrefix(s, prefix)]. *)
Definition HasPrefix (s prefix : string) : bool := String.prefix prefix s.

(** The slice expression [s[n:]] (for [n] within the string). *)
Fixpoint sliceFrom (n : nat) (s : string) : string :=
  match n, s with
  | O, _ => s
  | S n', String _ s' => sliceFrom n' s'
  | S _, EmptyString => EmptyString
  end.

(** [strconv.Itoa]. *)
Definition Itoa (i : Z) : string := NilZero.string_of_int (Z.to_int i).

Fixpoint parseDigits (s : string) (acc : Z) : option Z :=
  match s with
  | EmptyString => Some acc
  | String c s' =>
      let n := Z.of_nat (nat_of_ascii c) in
      if (48 <=? n) && (n <=? 57) then parseDigits s' (10 * acc + (n - 48))
      else None
  end.

(** [strconv.Atoi]: an optional sign and decimal digits, within the range
    of a 64-bit [int]. *)
Definition Atoi (s : string) : error + Z :=
  let '(neg, body) :=
    match s with
    | String "-" r => (true, r)
    | String "+" r => (false, r)
    | _ => (false, s)
    end in
  match body with
  | EmptyString => inl (NumError "Atoi" s "invalid syntax")
  | _ =>
      match parseDigits body 0 with
      | None => inl (NumError "Atoi" s "invalid syntax")
      | Some n =>
          let v := if neg : bool then - n else n in
          if (- 2 ^ 63 <=? v) && (v <=? 2 ^ 63 - 1) then inr v
          else inl (NumError "Atoi" s "value out of range")
      end
  end.

(** ** go-ldap: requests, results and the connection *)

Module ldap.

(** [ldap.AddAttribute], [ldap.DeleteAttribute], [ldap.ReplaceAttribute]. *)
Inductive Operation := AddAttribute | DeleteAttribute | ReplaceAttribute.

(** [ldap.PartialAttribute{Type, Vals}]. *)
Record PartialAttribute := mkPartialAttribute {
  AttrType : string;
  Vals : list string
}.

(** [ldap.Change{Operation, Modification}]. *)
Record Change := mkChange {
  Op : Operation;
  Modification : PartialAttribute
}.

(** [ldap.ModifyRequest]; the (always empty) controls are left out. *)
Record ModifyRequest := mkModifyRequest {
  ModDN : string;
  Changes : list Change
}.

Definition NewModifyRequest (dn : string) : ModifyRequest :=
  {| ModDN := dn; Changes := [] |}.

Definition appendChange (req : ModifyRequest) (op : Operation)
    (attrType : string) (attrVals : list string) : ModifyRequest :=
  {| ModDN := ModDN req;
     Changes := Changes req ++ [mkChange op (mkPartialAttribute attrType attrVals)] |}.

(** [req.Add], [req.Delete], [req.Replace]. *)
Definition Add req t vs := appendChange req AddAttribute t vs.
Definition Delete req t vs := appendChange req DeleteAttribute t vs.
Definition Replace req t vs := appendChange req ReplaceAttribute t vs.

(** [ldap.Attribute{Type, Vals}] of an add request. *)
Record Attribute := mkAttribute {
  AType : string;
  AVals : list string
}.

(** [ldap.AddRequest]. *)
Record AddRequest := mkAddRequest {
  AddDN : string;
  Attributes : list Attribute
}.

Definition NewAddRequest (dn : string) : AddRequest :=
  {| AddDN := dn; Attributes := [] |}.

(** [req.Attribute(attrType, attrVals)]. *)
Definition AddRequest_Attribute (req : AddRequest) (attrType : string)
    (attrVals : list string) : AddRequest :=
  {| AddDN := AddDN req;
     Attributes := Attributes req ++ [mkAttribute attrType attrVals] |}.

Inductive Scope := ScopeBaseObject | ScopeSingleLevel | ScopeWholeSubtree.
Inductive Deref := NeverDerefAliases | DerefInSearching | DerefFindingBaseObj | DerefAlways.

(** [ldap.SearchRequest]. *)
Record SearchRequest := NewSearchRequest {
  BaseDN : string;
  SearchScope : Scope;
  DerefAliases : Deref;
  SizeLimit : Z;
  TimeLimit : Z;
  TypesOnly : bool;
  Filter : string;
  SearchAttributes : list string
}.

(** [ldap.EntryAttribute], [ldap.Entry], [ldap.SearchResult]. *)
Record EntryAttribute := mkEntryAttribute {
  Name : string;
  Values : list string
}.

Record Entry := mkEntry {
  EntryDN : string;
  EntryAttributes : list EntryAttribute
}.

Record SearchResult := mkSearchResult {
  Entries : list Entry
}.

(** [entry.GetAttributeValues(attribute)]: the values of the first
    attribute of that name. *)
Fixpoint attributeValues (attrs : list EntryAttribute) (attribute : string) : list string :=
  match attrs with
  | [] => []
  | attr :: rest =>
      if String.eqb (Name attr) attribute then Values attr
      else attributeValues rest attribute
  end.

Definition GetAttributeValues (e : Entry) (attribute : string) : list string :=
  attributeValues (EntryAttributes e) attribute.

(** [entry.GetAttributeValue(attribute)]. *)
Definition GetAttributeValue (e : Entry) (attribute : string) : string :=
  match GetAttributeValues e attribute with
  | [] => ""
  | v :: _ => v
  end.

Definition LDAPResultNoSuchObject : N := 32.

(** The directory behind a connection: its state and what each
    operation answers. *)
Record Server := mkServer {
  Directory : Type;
  serveAdd : AddRequest → Directory → option error * Directory;
  serveSearch : SearchRequest → Directory → (error + SearchResult) * Directory;
  serveModify : ModifyRequest → Directory → option error * Directory;
  serveDel : string → Directory → option error * Directory
}.

(** A protocol call that reached the connection. *)
Inductive Call :=
| CallAdd (r : AddRequest)
| CallSearch (r : SearchRequest)
| CallModify (r : ModifyRequest)
| CallDel (dn : string).

(** [*ldap.Conn]: the directory it talks to and the calls made so far. *)
Record Conn (S : Server) := mkConn {
  dir : Directory S;
  calls : list Call
}.
Arguments mkConn {S}.
Arguments dir {S}.
Arguments calls {S}.

Section Client.
Context {S : Server}.

Definition ConnAdd (c : Conn S) (r : AddRequest) : option error * Conn S :=
  let '(err, dir') := serveAdd S r (dir c) in
  (err, mkConn dir' (calls c ++ [CallAdd r])).

Definition ConnSearch (c : Conn S) (r : SearchRequest)
    : (error + SearchResult) * Conn S :=
  let '(res, dir') := serveSearch S r (dir c) in
  (res, mkConn dir' (calls c ++ [CallSearch r])).

Definition ConnModify (c : Conn S) (r : ModifyRequest) : option error * Conn S :=
  let '(err, dir') := serveModify S r (dir c) in
  (err, mkConn dir' (calls c ++ [CallModify r])).

Definition ConnDel (c : Conn S) (dn : string) : option error * Conn S :=
  let '(err, dir') := serveDel S dn (dir c) in
  (err, mkConn dir' (calls c ++ [CallDel dn])).
End Client.

End ldap.

(** ** Terraform SDK: resource data *)

(** The values of the schema's fields.  A [schema.Set] of strings is a
    finite set and its [List()] is [elements]: the SDK lists a set in
    the order of its hash codes, an order no property below depends on.
    An element of [attributes] is a map holding one [name => value] entry
    (the schema's [MaxItems: 1]), kept as the pair; the set identifies
    entries by name and value. *)
Record Fields := mkFields {
  dn : string;
  description : string;
  gid_number : Z;
  member : gset string;
  member_uid : gset string;
  unique_member : gset string;
  member_url : gset string;
  attributes : gset (string * string);
  object_classes : gset string
}.

(** [*schema.ResourceData]: the identity, the prior state ([old], the
    first result of [GetChange]) and the values [Get] sees ([new], which
    [Set] writes). *)
Record ResourceData := mkResourceData {
  Id : string;
  old : Fields;
  new : Fields
}.

Definition SetId (d : ResourceData) (v : string) : ResourceData :=
  {| Id := v; old := old d; new := new d |}.

Definition withNew (d : ResourceData) (f : Fields) : ResourceData :=
  {| Id := Id d; old := old d; new := f |}.

(** [d.Set(key, value)], one definition per key the resource writes. *)
Definition Set_dn (d : ResourceData) (v : string) : ResourceData :=
  let f := new d in
  withNew d (mkFields v (description f) (gid_number f) (member f) (member_uid f)
               (unique_member f) (member_url f) (attributes f) (object_classes f)).

Definition Set_description (d : ResourceData) (v : string) : ResourceData :=
  let f := new d in
  withNew d (mkFields (dn f) v (gid_number f) (member f) (member_uid f)
               (unique_member f) (member_url f) (attributes f) (object_classes f)).

Definition Set_gid_number (d : ResourceData) (v : Z) : ResourceData :=
  let f := new d in
  withNew d (mkFields (dn f) (description f) v (member f) (member_uid f)
               (unique_member f) (member_url f) (attributes f) (object_classes f)).

Definition Set_member (d : ResourceData) (v : list string) : ResourceData :=
  let f := new d in
  withNew d (mkFields (dn f) (description f) (gid_number f) (list_to_set v) (member_uid f)
               (unique_member f) (member_url f) (attributes f) (object_classes f)).

Definition Set_member_uid (d : ResourceData) (v : list string) : ResourceData :=
  let f := new d in
  withNew d (mkFields (dn f) (description f) (gid_number f) (member f) (list_to_set v)
               (unique_member f) (member_url f) (attributes f) (object_classes f)).

Definition Set_unique_member (d : ResourceData) (v : list string) : ResourceData :=
  let f := new d in
  withNew d (mkFields (dn f) (description f) (gid_number f) (member f) (member_uid f)
               (list_to_set v) (member_url f) (attributes f) (object_classes f)).

Definition Set_member_url (d : ResourceData) (v : list string) : ResourceData :=
  let f := new d in
  withNew d (mkFields (dn f) (description f) (gid_number f) (member f) (member_uid f)
               (unique_member f) (list_to_set v) (attributes f) (object_classes f)).

Definition Set_attributes (d : ResourceData) (v : gset (string * string)) : ResourceData :=
  let f := new d in
  withNew d (mkFields (dn f) (description f) (gid_number f) (member f) (member_uid f)
               (unique_member f) (member_url f) v (object_classes f)).

Definition Set_object_classes (d : ResourceData) (v : gset string) : ResourceData :=
  let f := new d in
  withNew d (mkFields (dn f) (description f) (gid_number f) (member f) (member_uid f)
               (unique_member f) (member_url f) (attributes f) v).

(** The set-typed string fields by their schema key. *)
Definition stringSet (f : Fields) (key : string) : gset string :=
  if String.eqb key "member" then member f
  else if String.eqb key "member_uid" then member_uid f
  else if String.eqb key "unique_member" then unique_member f
  else if String.eqb key "member_url" then member_url f
  else if String.eqb key "object_classes" then object_classes f
  else ∅.

(** [d.GetOk(key)]: the value and whether it is set to something else
    than the zero value of its type (the empty string, [0], no element). *)
Definition GetOk_description (d : ResourceData) : string * bool :=
  (description (new d), negb (String.eqb (description (new d)) "")).

Definition GetOk_gid_number (d : ResourceData) : Z * bool :=
  (gid_number (new d), negb (gid_number (new d) =? 0)).

Definition GetOk_set (d : ResourceData) (key : string) : gset string * bool :=
  (stringSet (new d) key, negb (bool_decide (stringSet (new d) key = ∅))).

Definition GetOk_attributes (d : ResourceData) : gset (string * string) * bool :=
  (attributes (new d), negb (bool_decide (attributes (new d) = ∅))).

(** [d.GetChange(key)] and [d.HasChange(key)]; on sets [HasChange]
    compares with [Set.Equal]. *)
Definition GetChange_set (d : ResourceData) (key : string) : gset string * gset string :=
  (stringSet (old d) key, stringSet (new d) key).

Definition HasChange_set (d : ResourceData) (key : string) : bool :=
  bool_decide (stringSet (old d) key ≠ stringSet (new d) key).

Definition HasChange_description (d : ResourceData) : bool :=
  negb (String.eqb (description (old d)) (description (new d))).

Definition HasChange_gid_number (d : ResourceData) : bool :=
  negb (gid_number (old d) =? gid_number (new d)).

Definition GetChange_attributes (d : ResourceData)
    : gset (string * string) * gset (string * string) :=
  (attributes (old d), attributes (new d)).

Definition HasChange_attributes (d : ResourceData) : bool :=
  bool_decide (attributes (old d) ≠ attributes (new d)).

(** [Len()] of a [schema.Set]. *)
Definition Len {A} `{Countable A} (s : gset A) : nat := size s.

(** ** The resource: helpers *)

Definition convertToStringSlice (input : list string) : list string :=
  map (fun v => v) input.

Definition convertToInterfaceSlice (strings : list string) : list string :=
  map (fun v => v) strings.

(** deriveCNFromDN extracts the CN from a DN of the form
    [CN=groupname,OU=subunit,DC=example,DC=com]. *)
Definition deriveCNFromDN (dn : string) : error + string :=
  match SplitN2 "," dn with
  | [] => inl (Errorf "invalid DN format" [])
  | cnPart :: _ =>
      if HasPrefix (ToUpper cnPart) "CN=" then inr (sliceFrom 3 cnPart)
      else inl (Errorf "CN not found in DN" [])
  end.

(** validateObjectClasses checks that the attributes the given object
    classes require are available. *)
Definition validateObjectClasses (objectClasses : list string) (d : ResourceData)
    : list error :=
  fold_left
    (fun errors objectClass =>
       if String.eqb objectClass "posixGroup" then
         if negb (snd (GetOk_gid_number d)) then
           errors ++ [Errorf "missing required attribute 'gid_number' for objectClass 'posixGroup'" []]
         else errors
       else errors)
    objectClasses [].

(** updateLDAPAttributeSet: the update of one member-like attribute. *)
Definition updateLDAPAttributeSet (request : ldap.ModifyRequest) (d : ResourceData)
    (tfAttributeName ldapAttributeName : string) : option error * ldap.ModifyRequest :=
  if HasChange_set d tfAttributeName then
    let '(oldSet, newSet) := GetChange_set d tfAttributeName in
    let request :=
      fold_left (fun req add => ldap.Add req ldapAttributeName [add])
                (elements (newSet ∖ oldSet)) request in
    let request :=
      fold_left (fun req remove => ldap.Delete req ldapAttributeName [remove])
                (elements (oldSet ∖ newSet)) request in
    (None, request)
  else (None, request).

(** Modelled from the spec: [computeDeltas], which the update calls and
    which is defined in the provider's [ldap_object] resource file, not
    among the sources at hand.  The spec's DeltaComputer: both bags are
    sets of singleton entries, [added = desired - previous] and
    [removed = previous - desired] by entry identity, and no entry is
    ever [changed].  Each entry is rendered as the attribute modification
    carrying its one value. *)
Definition entryModification (e : string * string) : ldap.PartialAttribute :=
  ldap.mkPartialAttribute (fst e) [snd e].

Definition computeDeltas (os ns : gset (string * string))
    : list ldap.PartialAttribute * list ldap.PartialAttribute * list ldap.PartialAttribute :=
  (map entryModification (elements (ns ∖ os)),
   [],
   map entryModification (elements (os ∖ ns))).

(** ** The resource: read, create, update, delete, import

    Each operation takes the resource data and the connection and returns
    its [error] ([None] for [nil]) with both as it leaves them. *)

(** One turn of the read loop over the entry's attributes: what the
    attribute adds to the set of generic attributes. *)
Definition readAttribute (dn : string) (set : gset (string * string))
    (attribute : ldap.EntryAttribute) : gset (string * string) :=
  let name := ldap.Name attribute in
  (* skip already-handled or system attributes *)
  if String.eqb name "objectClass" || String.eqb name "cn" || String.eqb name "description"
     || String.eqb name "gidNumber" || String.eqb name "memberUid"
     || String.eqb name "uniqueMember" || String.eqb name "memberURL"
     || String.eqb name "member"
  then set
  else
    (* the RDN is not treated as an ordinary attribute *)
    if match ldap.Values attribute with
       | [v] => HasPrefix dn (name +:+ "=" +:+ v)
       | _ => false
       end
    then set
    else
      (* each value becomes an entry of its own *)
      fold_left (fun set value => set ∪ {[ (name, value) ]}) (ldap.Values attribute) set.

Section Resource.
Context {S : ldap.Server}.

Definition resourceLDAPGroupRead (d : ResourceData) (client : ldap.Conn S)
    : option error * ResourceData * ldap.Conn S :=
  let dn := dn (new d) in
  let attributesToRead :=
    ["cn"; "description"; "gidNumber"; "memberUid"; "uniqueMember"; "memberURL"; "*"] in
  let request :=
    ldap.NewSearchRequest dn ldap.ScopeBaseObject ldap.NeverDerefAliases 0 0 false
      "(objectclass=*)" attributesToRead in
  let '(res, client) := ldap.ConnSearch client request in
  match res with
  | inl err =>
      match err with
      | LdapError code _ =>
          if (code =? ldap.LDAPResultNoSuchObject)%N then (None, SetId d "", client)
          else (Some err, d, client)
      | _ => (Some err, d, client)
      end
  | inr sr =>
      match ldap.Entries sr with
      | [] => (None, SetId d "", client)
      | entry :: _ =>
          let d := Set_description d (ldap.GetAttributeValue entry "description") in
          (* gidNumber *)
          let gidNumberStr := ldap.GetAttributeValue entry "gidNumber" in
          let gid :=
            if negb (String.eqb gidNumberStr "") then
              match Atoi gidNumberStr with
              | inl err => inl err
              | inr gidNumber => inr (Set_gid_number d gidNumber)
              end
            else inr d in
          match gid with
          | inl err => (Some err, d, client)
          | inr d =>
              (* objectClass *)
              let objectClasses := ldap.GetAttributeValues entry "objectClass" in
              let d :=
                if (0 <? length objectClasses)%nat
                then Set_object_classes d (list_to_set (convertToInterfaceSlice objectClasses))
                else d in
              (* memberUid *)
              let memberUids := ldap.GetAttributeValues entry "memberUid" in
              let d := if (0 <? length memberUids)%nat then Set_member_uid d memberUids else d in
              (* uniqueMember *)
              let uniqueMembers := ldap.GetAttributeValues entry "uniqueMember" in
              let d :=
                if (0 <? length uniqueMembers)%nat then Set_unique_member d uniqueMembers else d in
              (* memberURL *)
              let memberURLs := ldap.GetAttributeValues entry "memberURL" in
              let d := if (0 <? length memberURLs)%nat then Set_member_url d memberURLs else d in
              (* member *)
              let members := ldap.GetAttributeValues entry "member" in
              let d := if (0 <? length members)%nat then Set_member d memberURLs else d in
              (* other attributes *)
              let set := fold_left (readAttribute dn) (ldap.EntryAttributes entry) ∅ in
              (* storing a set of single-entry maps does not fail *)
              let d := Set_attributes d set in
              (None, d, client)
          end
      end
  end.

Definition resourceLDAPGroupCreate (d : ResourceData) (client : ldap.Conn S)
    : option error * ResourceData * ldap.Conn S :=
  let dn := dn (new d) in
  let request := ldap.NewAddRequest dn in
  (* object class *)
  let objectClasses :=
    let '(v, ok) := GetOk_set d "object_classes" in
    if ok then fold_left (fun ocs oc => ocs ++ [oc]) (elements v) []
    else ["posixGroup"] in
  let errors := validateObjectClasses objectClasses d in
  if (0 <? length errors)%nat then
    (Some (Errorf "validation failed for DN %q: %v" [ArgString dn; ArgErrors errors]), d, client)
  else
    let request := ldap.AddRequest_Attribute request "objectClass" objectClasses in
    (* derive the CN from the DN *)
    match deriveCNFromDN dn with
    | inl err => (Some err, d, client)
    | inr cn =>
        let request := ldap.AddRequest_Attribute request "cn" [cn] in
        let request :=
          let '(description, ok) := GetOk_description d in
          if ok then ldap.AddRequest_Attribute request "description" [description]
          else request in
        let request :=
          let '(v, ok) := GetOk_gid_number d in
          if ok then ldap.AddRequest_Attribute request "gidNumber" [Itoa v] else request in
        let request :=
          let '(v, ok) := GetOk_set d "member_uid" in
          if ok && (0 <? Len v)%nat
          then ldap.AddRequest_Attribute request "memberUid" (convertToStringSlice (elements v))
          else request in
        let request :=
          let '(v, ok) := GetOk_set d "unique_member" in
          if ok && (0 <? Len v)%nat
          then ldap.AddRequest_Attribute request "uniqueMember" (convertToStringSlice (elements v))
          else request in
        let request :=
          let '(v, ok) := GetOk_set d "member_url" in
          if ok && (0 <? Len v)%nat
          then ldap.AddRequest_Attribute request "memberURL" (convertToStringSlice (elements v))
          else request in
        let request :=
          let '(v, ok) := GetOk_set d "member" in
          if ok && (0 <? Len v)%nat
          then ldap.AddRequest_Attribute request "member" (convertToStringSlice (elements v))
          else request in
        (* generic attributes: values sharing a name are accumulated
           in a map, whose entries then become attributes, in the
           order the map yields them *)
        let request :=
          let '(v, ok) := GetOk_attributes d in
          if ok then
            let attributes := elements v in
            if (0 <? length attributes)%nat then
              let m : gmap string (list string) :=
                fold_left
                  (fun m attribute =>
                     let '(name, value) := attribute in
                     <[name := default [] (m !! name) ++ [value]]> m)
                  attributes ∅ in
              fold_left
                (fun request nv => ldap.AddRequest_Attribute request (fst nv) (snd nv))
                (map_to_list m) request
            else request
          else request in
        let '(err, client) := ldap.ConnAdd client request in
        match err with
        | Some err => (Some err, d, client)
        | None =>
            let d := SetId d dn in
            resourceLDAPGroupRead d client
        end
    end.

Definition resourceLDAPGroupUpdate (d : ResourceData) (client : ldap.Conn S)
    : option error * ResourceData * ldap.Conn S :=
  let dn := dn (new d) in
  let request := ldap.NewModifyRequest dn in
  let request :=
    if HasChange_description d
    then ldap.Replace request "description" [description (new d)] else request in
  let request :=
    if HasChange_gid_number d
    then ldap.Replace request "gidNumber" [Itoa (gid_number (new d))] else request in
  (* member-like attributes *)
  match updateLDAPAttributeSet request d "member" "member" with
  | (Some err, _) => (Some err, d, client)
  | (None, request) =>
  match updateLDAPAttributeSet request d "member_uid" "memberUid" with
  | (Some err, _) => (Some err, d, client)
  | (None, request) =>
  match updateLDAPAttributeSet request d "unique_member" "uniqueMember" with
  | (Some err, _) => (Some err, d, client)
  | (None, request) =>
  match updateLDAPAttributeSet request d "member_url" "memberURL" with
  | (Some err, _) => (Some err, d, client)
  | (None, request) =>
      let request :=
        if HasChange_attributes d then
          let '(o, n) := GetChange_attributes d in
          let '(added, changed, removed) := computeDeltas o n in
          let request :=
            if (0 <? length added)%nat then
              fold_left
                (fun req attr =>
                   ldap.mkModifyRequest (ldap.ModDN req)
                     (ldap.Changes req ++ [ldap.mkChange ldap.AddAttribute attr]))
                added request
            else request in
          let request :=
            if (0 <? length changed)%nat then
              fold_left
                (fun req attr =>
                   ldap.mkModifyRequest (ldap.ModDN req)
                     (ldap.Changes req ++ [ldap.mkChange ldap.ReplaceAttribute attr]))
                changed request
            else request in
          if (0 <? length removed)%nat then
            fold_left
              (fun req attr =>
                 ldap.mkModifyRequest (ldap.ModDN req)
                   (ldap.Changes req ++ [ldap.mkChange ldap.DeleteAttribute attr]))
              removed request
          else request
        else request in
      let '(err, client) := ldap.ConnModify client request in
      match err with
      | Some err => (Some err, d, client)
      | None => resourceLDAPGroupRead d client
      end
  end end end end.

Definition resourceLDAPGroupDelete (d : ResourceData) (client : ldap.Conn S)
    : option error * ResourceData * ldap.Conn S :=
  let dn := dn (new d) in
  let '(err, client) := ldap.ConnDel client dn in
  match err with
  | Some err => (Some err, d, client)
  | None => (None, SetId d "", client)
  end.

Definition resourceLDAPGroupImport (d : ResourceData) (client : ldap.Conn S)
    : (error + list ResourceData) * ResourceData * ldap.Conn S :=
  (* the DN is the ID *)
  let dn := Id d in
  let d := Set_dn d dn in
  match resourceLDAPGroupRead d client with
  | (Some err, d, client) => (inl err, d, client)
  | (None, d, client) => (inr [d], d, client)
  end.

End Resource.

(** A directory that gives fixed answers: a double for the connection. *)
Definition stubServer (addErr : option error) (found : error + ldap.SearchResult)
    : ldap.Server :=
  {| ldap.Directory := unit;
     ldap.serveAdd := fun _ s => (addErr, s);
     ldap.serveSearch := fun _ s => (found, s);
     ldap.serveModify := fun _ s => (None, s);
     ldap.serveDel := fun _ s => (None, s) |}.

Definition newConn (S : ldap.Server) (s : ldap.Directory S) : ldap.Conn S :=
  ldap.mkConn s [].

(** ** The directory's side of a modify request

    What a directory server does with the changes of a modify request
    (RFC 4511, section 4.6), on one entry: an entry maps an attribute name
    to its set of values.  Adding a value the attribute already holds, or
    deleting one it does not hold, fails the request. *)
Module directory.

Definition values (e : gmap string (gset string)) (a : string) : gset string :=
  default ∅ (e !! a).

Definition applyChange (c : ldap.Change) (e : gmap string (gset string))
    : option (gmap string (gset string)) :=
  let a := ldap.AttrType (ldap.Modification c) in
  let vs := ldap.Vals (ldap.Modification c) in
  match ldap.Op c with
  | ldap.AddAttribute =>
      if forallb (fun v => bool_decide (v ∉ values e a)) vs
      then Some (<[a := values e a ∪ list_to_set vs]> e)
      else None
  | ldap.DeleteAttribute =>
      match vs with
      | [] => if decide (values e a = ∅) then None else Some (delete a e)
      | _ => if forallb (fun v => bool_decide (v ∈ values e a)) vs
             then Some (<[a := values e a ∖ list_to_set vs]> e)
             else None
      end
  | ldap.ReplaceAttribute =>
      match vs with
      | [] => Some (delete a e)
      | _ => Some (<[a := list_to_set vs]> e)
      end
  end.

Fixpoint applyChanges (cs : list ldap.Change) (e : gmap string (gset string))
    : option (gmap string (gset string)) :=
  match cs with
  | [] => Some e
  | c :: cs' =>
      match applyChange c e with
      | Some e' => applyChanges cs' e'
      | None => None
      end
  end.

End directory.

(** ** Vocabulary of the statements *)

#[global] Instance Operation_eq_dec : EqDecision ldap.Operation.
Proof. solve_decision. Defined.
#[global] Instance PartialAttribute_eq_dec : EqDecision ldap.PartialAttribute.
Proof. solve_decision. Defined.
#[global] Instance Change_eq_dec : EqDecision ldap.Change.
Proof. solve_decision. Defined.

(** The change adding, or deleting, the one value [v] of attribute [name]. *)
Definition addChange (name v : string) : ldap.Change :=
  ldap.mkChange ldap.AddAttribute (ldap.mkPartialAttribute name [v]).

Definition delChange (name v : string) : ldap.Change :=
  ldap.mkChange ldap.DeleteAttribute (ldap.mkPartialAttribute name [v]).

(** How often a change occurs in a list of changes. *)
Definition countChange (c : ldap.Change) (cs : list ldap.Change) : nat :=
  length (filter (fun c' => c' = c) cs).

(** The well-known multi-valued attributes: schema key and LDAP name, as
    the update passes them to [updateLDAPAttributeSet]. *)
Definition wellKnownSets : list (string * string) :=
  [("member", "member"); ("member_uid", "memberUid");
   ("unique_member", "uniqueMember"); ("member_url", "memberURL")].

(** The changes of one set-valued attribute with previous values [P] and
    desired values [D]. *)
Definition setDelta (name : string) (P D : gset string) : list ldap.Change :=
  map (addChange name) (elements (D ∖ P)) ++ map (delChange name) (elements (P ∖ D)).

(** The changes of the scalar attributes. *)
Definition scalarChanges (d : ResourceData) : list ldap.Change :=
  (if HasChange_description d
   then [ldap.mkChange ldap.ReplaceAttribute
           (ldap.mkPartialAttribute "description" [description (new d)])]
   else [])
  ++ (if HasChange_gid_number d
      then [ldap.mkChange ldap.ReplaceAttribute
              (ldap.mkPartialAttribute "gidNumber" [Itoa (gid_number (new d))])]
      else []).

(** The changes of the generic attributes. *)
Definition bagChanges (d : ResourceData) : list ldap.Change :=
  if HasChange_attributes d then
    let '(added, changed, removed) := computeDeltas (attributes (old d)) (attributes (new d)) in
    map (ldap.mkChange ldap.AddAttribute) added
    ++ map (ldap.mkChange ldap.ReplaceAttribute) changed
    ++ map (ldap.mkChange ldap.DeleteAttribute) removed
  else [].

(** The changes of an update, in the order the update appends them. *)
Definition updateChanges (d : ResourceData) : list ldap.Change :=
  scalarChanges d
  ++ setDelta "member" (member (old d)) (member (new d))
  ++ setDelta "memberUid" (member_uid (old d)) (member_uid (new d))
  ++ setDelta "uniqueMember" (unique_member (old d)) (unique_member (new d))
  ++ setDelta "memberURL" (member_url (old d)) (member_url (new d))
  ++ bagChanges d.

(** The search request of a read. *)
Definition searchRequest (dn : string) : ldap.SearchRequest :=
  ldap.NewSearchRequest dn ldap.ScopeBaseObject ldap.NeverDerefAliases 0 0 false
    "(objectclass=*)"
    ["cn"; "description"; "gidNumber"; "memberUid"; "uniqueMember"; "memberURL"; "*"].

(** The names the read loop skips, and its test for the RDN. *)
Definition handledNames : list string :=
  ["objectClass"; "cn"; "description"; "gidNumber"; "memberUid"; "uniqueMember";
   "memberURL"; "member"].

Definition isRDN (dn : string) (a : ldap.EntryAttribute) : bool :=
  match ldap.Values a with
  | [v] => HasPrefix dn (ldap.Name a +:+ "=" +:+ v)
  | _ => false
  end.

(** An attribute the read loop keeps for the generic bag. *)
Definition kept (dn : string) (a : ldap.EntryAttribute) : bool :=
  bool_decide (ldap.Name a ∉ handledNames) && negb (isRDN dn a).

(** The entries one attribute brings to the generic bag: one per value. *)
Definition contribution (dn : string) (a : ldap.EntryAttribute) : list (string * string) :=
  if kept dn a then map (pair (ldap.Name a)) (ldap.Values a) else [].

(** The generic bag the read loop builds from the attributes of an entry. *)
Definition decodeBag (dn : string) (attrs : list ldap.EntryAttribute)
    : gset (string * string) :=
  fold_left (readAttribute dn) attrs ∅.

(** The object classes a create works with. *)
Definition createObjectClasses (d : ResourceData) : list string :=
  if snd (GetOk_set d "object_classes") then elements (object_classes (new d))
  else ["posixGroup"].

(** The add request a create builds once the CN is derived. *)
Definition createRequest (d : ResourceData) (cn : string) : ldap.AddRequest :=
  let request := ldap.NewAddRequest (dn (new d)) in
  let request := ldap.AddRequest_Attribute request "objectClass" (createObjectClasses d) in
  let request := ldap.AddRequest_Attribute request "cn" [cn] in
  let request :=
    let '(description, ok) := GetOk_description d in
    if ok then ldap.AddRequest_Attribute request "description" [description]
    else request in
  let request :=
    let '(v, ok) := GetOk_gid_number d in
    if ok then ldap.AddRequest_Attribute request "gidNumber" [Itoa v] else request in
  let request :=
    let '(v, ok) := GetOk_set d "member_uid" in
    if ok && (0 <? Len v)%nat
    then ldap.AddRequest_Attribute request "memberUid" (convertToStringSlice (elements v))
    else request in
  let request :=
    let '(v, ok) := GetOk_set d "unique_member" in
    if ok && (0 <? Len v)%nat
    then ldap.AddRequest_Attribute request "uniqueMember" (convertToStringSlice (elements v))
    else request in
  let request :=
    let '(v, ok) := GetOk_set d "member_url" in
    if ok && (0 <? Len v)%nat
    then ldap.AddRequest_Attribute request "memberURL" (convertToStringSlice (elements v))
    else request in
  let request :=
    let '(v, ok) := GetOk_set d "member" in
    if ok && (0 <? Len v)%nat
    then ldap.AddRequest_Attribute request "member" (convertToStringSlice (elements v))
    else request in
  let '(v, ok) := GetOk_attributes d in
  if ok then
    let attributes := elements v in
    if (0 <? length attributes)%nat then
      let m : gmap string (list string) :=
        fold_left
          (fun m attribute =>
             let '(name, value) := attribute in
             <[name := default [] (m !! name) ++ [value]]> m)
          attributes ∅ in
      fold_left
        (fun request nv => ldap.AddRequest_Attribute request (fst nv) (snd nv))
        (map_to_list m) request
    else request
  else request.

(** The error of a create whose validation fails. *)
Definition validationFailed (dn : string) (errors : list error) : error :=
  Errorf "validation failed for DN %q: %v" [ArgString dn; ArgErrors errors].

Definition missingGidNumber : error :=
  Errorf "missing required attribute 'gid_number' for objectClass 'posixGroup'" [].

(** A string without the byte [c]. *)
Fixpoint containsByte (c : ascii) (s : string) : bool :=
  match s with
  | EmptyString => false
  | String c' s' => Ascii.eqb c' c || containsByte c s'
  end.

(** [comp] is the first comma-separated component of [dn]. *)
Inductive FirstComponent : string → string → Prop :=
| first_whole (s : string) :
    containsByte "," s = false → FirstComponent s s
| first_cut (comp rest : string) :
    containsByte "," comp = false → FirstComponent (comp +:+ String "," rest) comp.

(** [comp] is a [cn=value] pair, the attribute name in either case. *)
Definition CNPair (comp value : string) : Prop :=
  ∃ c n : ascii,
    comp = String c (String n (String "=" value))
    ∧ (c = "c"%char ∨ c = "C"%char) ∧ (n = "n"%char ∨ n = "N"%char).

(** ** Example data *)

(** The scenario of the spec: [memberUid] with previous values alice, bob
    and desired values bob, carol. *)
Definition scenarioFields (uids : gset string) : Fields :=
  mkFields "cn=mygroup,ou=users,dc=example,dc=com" "" 1000 ∅ uids ∅ ∅ ∅ {["posixGroup"]}.

Definition scenarioData : ResourceData :=
  mkResourceData "cn=mygroup,ou=users,dc=example,dc=com"
    (scenarioFields {["alice"; "bob"]}) (scenarioFields {["bob"; "carol"]}).


(** The group of the provider's example, as a directory holds it. *)
Definition exampleEntry : ldap.Entry :=
  ldap.mkEntry "cn=mygroup,ou=users,dc=example,dc=com"
    [ldap.mkEntryAttribute "objectClass" ["top"; "posixGroup"];
     ldap.mkEntryAttribute "cn" ["mygroup"];
     ldap.mkEntryAttribute "gidNumber" ["1000"];
     ldap.mkEntryAttribute "businessCategory" ["My Business Category"];
     ldap.mkEntryAttribute "mail" ["a@x.com"; "b@x.com"]].

Definition exampleServer : ldap.Server :=
  stubServer None (inr (ldap.mkSearchResult [exampleEntry])).

(** An entry with both [member] and [memberURL] values. *)
Definition memberEntry : ldap.Entry :=
  ldap.mkEntry "cn=mygroup,ou=users,dc=example,dc=com"
    [ldap.mkEntryAttribute "objectClass" ["groupOfNames"; "groupOfURLs"];
     ldap.mkEntryAttribute "cn" ["mygroup"];
     ldap.mkEntryAttribute "member" ["uid=alice,ou=users,dc=example,dc=com"];
     ldap.mkEntryAttribute "memberURL" ["ldap:///ou=users,dc=example,dc=com??sub?(uid=*)"]].

Definition memberServer : ldap.Server :=
  stubServer None (inr (ldap.mkSearchResult [memberEntry])).

(** A desired group under a DN that does not start with a CN. *)
Definition noCNData : ResourceData :=
  let f := mkFields "ou=users,dc=example,dc=com" "" 1000 ∅ ∅ ∅ ∅ ∅ {["posixGroup"]} in
  mkResourceData "" f f.

(** A desired group that gives no object classes, without and with a
    gid_number. *)
Definition defaultClassData (gid : Z) : ResourceData :=
  let f := mkFields "cn=mygroup,ou=users,dc=example,dc=com" "" gid ∅ ∅ ∅ ∅ ∅ ∅ in
  mkResourceData "" f f.

From Stdlib Require Import DecimalPos.

(** A group whose state differs from the desired one in its object
    classes only. *)
Definition classChangeData : ResourceData :=
  Set_object_classes (defaultClassData 1000) {["top"]}.

(** The directory entry of the scenario before its update. *)
Definition scenarioEntry : gmap string (gset string) :=
  {[ "cn" := {["mygroup"]}; "memberUid" := {["alice"; "bob"]} ]}.

(** The values listed under a name in a sequence of [name => value]
    entries, in the order of the sequence. *)
Definition valuesOf (name : string) (l : list (string * string)) : list string :=
  map snd (filter (fun e => fst e = name) l).

(** The map in which a create accumulates the generic attributes. *)
Definition groupByName (l : list (string * string)) : gmap string (list string) :=
  fold_left
    (fun m attribute =>
       let '(name, value) := attribute in
       <[name := default [] (m !! name) ++ [value]]> m)
    l ∅.

(** A desired group with two mail addresses among its generic
    attributes. *)
Definition mailData : ResourceData :=
  let f := mkFields "cn=mygroup,ou=users,dc=example,dc=com" "" 1000 ∅ ∅ ∅ ∅
             {[ ("mail", "a@x.com"); ("mail", "b@x.com") ]} {["posixGroup"]} in
  mkResourceData "" f f.

(** An entry whose gidNumber is no number. *)
Definition badGidEntry : ldap.Entry :=
  ldap.mkEntry "cn=mygroup,ou=users,dc=example,dc=com"
    [ldap.mkEntryAttribute "description" ["My Group"];
     ldap.mkEntryAttribute "gidNumber" ["12a"];
     ldap.mkEntryAttribute "memberUid" ["dave"]].

Definition badGidServer : ldap.Server :=
  stubServer None (inr (ldap.mkSearchResult [badGidEntry])).

(** The attributes a create sends for the generic bag, from the entries
    of the bag as the set lists them. *)
Definition genericAttributes (bag : list (string * string)) : list ldap.Attribute :=
  map (fun nv => ldap.mkAttribute (fst nv) (snd nv)) (map_to_list (groupByName bag)).

(** An attribute of an add request as a search returns it. *)
Definition asWire (a : ldap.Attribute) : ldap.EntryAttribute :=
  ldap.mkEntryAttribute (ldap.AType a) (ldap.AVals a).

(** ** The provider: validation of attribute values *)

Section ValidateAttributes.

(** [strings.EqualFold], equality under Unicode case folding. *)
Variable EqualFold : string → string → bool.

(** validateAttributes looks for a generic attribute whose value equals,
    case folded, one of the invalid values. *)
Definition validateAttributes (d : ResourceData) (invalidValues : list string)
    : option error :=
  let '(v, ok) := GetOk_attributes d in
  if ok then
    let attributes := elements v in
    (fix loop (attributes : list (string * string)) : option error :=
       match attributes with
       | [] => None
       | (name, value) :: rest =>
           let valStr := value in
           if existsb (fun invalid => EqualFold valStr invalid) invalidValues
           then Some (Errorf "attribute %q has invalid value '%s'"
                        [ArgString name; ArgString valStr])
           else loop rest
       end) attributes
  else None.

End ValidateAttributes.

(** ** The client: dialling and binding *)

Module client.

(** [client.Config]. *)
Record Config := mkConfig {
  LDAPHost : string;
  LDAPPort : Z;
  BindUser : string;
  BindPassword : string;
  StartTLS : bool;
  TLS : bool;
  TLSInsecure : bool
}.

(** The fields of [tls.Config] the client sets; a field left out of the
    literal has its zero value. *)
Record tlsConfig := mkTlsConfig {
  ServerName : string;
  InsecureSkipVerify : bool
}.

(** The network behind go-ldap: its state, the connections it hands out
    and what each operation answers. *)
Record Network := mkNetwork {
  World : Type;
  Handle : Type;
  netDialTLS : string → string → tlsConfig → World → (error + Handle) * World;
  netDial : string → string → World → (error + Handle) * World;
  netStartTLS : Handle → tlsConfig → World → option error * World;
  netBind : Handle → string → string → World → option error * World;
  netClose : Handle → World → World
}.

(** An operation that reached the network. *)
Inductive Event :=
| EvDialTLS (network addr : string) (config : tlsConfig)
| EvDial (network addr : string)
| EvStartTLS (config : tlsConfig)
| EvBind (username password : string)
| EvClose.

Record Net (N : Network) := mkNet {
  world : World N;
  events : list Event
}.
Arguments mkNet {N}.
Arguments world {N}.
Arguments events {N}.

Section Dial.
Context {N : Network}.

Definition DialTLS (network addr : string) (config : tlsConfig) (n : Net N)
    : (error + Handle N) * Net N :=
  let '(res, w) := netDialTLS N network addr config (world n) in
  (res, mkNet w (events n ++ [EvDialTLS network addr config])).

Definition Dial (network addr : string) (n : Net N) : (error + Handle N) * Net N :=
  let '(res, w) := netDial N network addr (world n) in
  (res, mkNet w (events n ++ [EvDial network addr])).

Definition ConnStartTLS (conn : Handle N) (config : tlsConfig) (n : Net N)
    : option error * Net N :=
  let '(err, w) := netStartTLS N conn config (world n) in
  (err, mkNet w (events n ++ [EvStartTLS config])).

Definition ConnBind (conn : Handle N) (username password : string) (n : Net N)
    : option error * Net N :=
  let '(err, w) := netBind N conn username password (world n) in
  (err, mkNet w (events n ++ [EvBind username password])).

Definition ConnClose (conn : Handle N) (n : Net N) : Net N :=
  mkNet (netClose N conn (world n)) (events n ++ [EvClose]).

Definition dial (c : Config) (n : Net N) : (error + Handle N) * Net N :=
  let uri := LDAPHost c +:+ ":" +:+ Itoa (LDAPPort c) in
  if TLS c then
    DialTLS "tcp" uri (mkTlsConfig (LDAPHost c) (TLSInsecure c)) n
  else
    let '(res, n) := Dial "tcp" uri n in
    match res with
    | inl err => (inl err, n)
    | inr conn =>
        if StartTLS c then
          let '(err, n) := ConnStartTLS conn (mkTlsConfig "" true) n in
          match err with
          | Some err => (inl err, n)
          | None => (inr conn, n)
          end
        else (inr conn, n)
    end.

Definition DialAndBind (c : Config) (n : Net N) : (error + Handle N) * Net N :=
  let '(res, n) := dial c n in
  match res with
  | inl err => (inl err, n)
  | inr conn =>
      (* bind to the current connection *)
      let '(err, n) := ConnBind conn (BindUser c) (BindPassword c) n in
      match err with
      | Some err => (inl err, ConnClose conn n)
      | None => (inr conn, n)
      end
  end.

End Dial.

End client.

(** A network whose dialling hands out connection 1 and whose
    operations succeed, but for the bind when [bindErr] is given. *)
Definition stubNetwork (bindErr : option error) : client.Network :=
  {| client.World := unit;
     client.Handle := nat;
     client.netDialTLS := fun _ _ _ w => (inr 1%nat, w);
     client.netDial := fun _ _ w => (inr 1%nat, w);
     client.netStartTLS := fun _ _ w => (None, w);
     client.netBind := fun _ _ _ w => (bindErr, w);
     client.netClose := fun _ w => w |}.

Definition exampleConfig (startTLS tls tlsInsecure : bool) : client.Config :=
  client.mkConfig "localhost" 389 "cn=admin,dc=example,dc=com" "admin"
    startTLS tls tlsInsecure.

(** Equality of strings up to the case of ASCII letters. *)
Definition asciiEqualFold (s t : string) : bool := String.eqb (ToUpper s) (ToUpper t).

(** A desired object with a password among its generic attributes. *)
Definition passwordData : ResourceData :=
  let f := mkFields "cn=mygroup,ou=users,dc=example,dc=com" "" 1000 ∅ ∅ ∅ ∅
             {[ ("mail", "a@x.com"); ("userPassword", "ChangeMe") ]} {["posixGroup"]} in
  mkResourceData "" f f.

(** * Properties *)

(** ** Set-valued well-known attributes: the update *)

Lemma fold_Add_changes name l req :
  fold_left (fun r add => ldap.Add r name [add]) l req
  = ldap.mkModifyRequest (ldap.ModDN req) (ldap.Changes req ++ map (addChange name) l).
Proof.
  revert req. induction l as [|x l IH]; intros req; simpl.
  - rewrite app_nil_r. by destruct req.
  - rewrite IH. simpl. by rewrite <- app_assoc.
Qed.

Lemma fold_Delete_changes name l req :
  fold_left (fun r remove => ldap.Delete r name [remove]) l req
  = ldap.mkModifyRequest (ldap.ModDN req) (ldap.Changes req ++ map (delChange name) l).
Proof.
  revert req. induction l as [|x l IH]; intros req; simpl.
  - rewrite app_nil_r. by destruct req.
  - rewrite IH. simpl. by rewrite <- app_assoc.
Qed.

Lemma updateLDAPAttributeSet_changes request d tf name :
  updateLDAPAttributeSet request d tf name
  = (None, ldap.mkModifyRequest (ldap.ModDN request)
             (ldap.Changes request
              ++ setDelta name (stringSet (old d) tf) (stringSet (new d) tf))).
Proof.
  unfold updateLDAPAttributeSet, HasChange_set, GetChange_set, setDelta.
  case_bool_decide as Hne.
  - rewrite fold_Delete_changes, fold_Add_changes. simpl. by rewrite <- app_assoc.
  - rewrite Hne, difference_diag_L, elements_empty. simpl.
    rewrite app_nil_r. by destruct request.
Qed.

Lemma applyChanges_app cs1 cs2 e :
  directory.applyChanges (cs1 ++ cs2) e
  = match directory.applyChanges cs1 e with
    | Some e' => directory.applyChanges cs2 e'
    | None => None
    end.
Proof.
  revert e. induction cs1 as [|c cs1 IH]; intros e; simpl; [done|].
  destruct (directory.applyChange c e); [apply IH | done].
Qed.

Lemma values_insert_eq e a s : directory.values (<[a := s]> e) a = s.
Proof. unfold directory.values. by rewrite lookup_insert_eq. Qed.

Lemma applyChanges_adds name l : ∀ e,
  NoDup l → (∀ v, v ∈ l → v ∉ directory.values e name) →
  ∃ e', directory.applyChanges (map (addChange name) l) e = Some e'
        ∧ directory.values e' name = directory.values e name ∪ list_to_set l
        ∧ ∀ a, a ≠ name → e' !! a = e !! a.
Proof.
  induction l as [|x l IH]; intros e Hnd Hfresh; cbn [map directory.applyChanges].
  - exists e. split; [done|]. split; [set_solver | done].
  - apply NoDup_cons in Hnd as [Hx Hnd].
    unfold directory.applyChange;
      cbn [addChange ldap.Op ldap.Modification ldap.AttrType ldap.Vals forallb].
    rewrite bool_decide_eq_true_2 by (apply Hfresh; left). cbn [andb].
    destruct (IH (<[name := directory.values e name ∪ list_to_set [x]]> e))
      as (e' & Hrun & Hval & Hoth).
    + done.
    + intros v Hv. rewrite values_insert_eq.
      assert (v ∉ directory.values e name) by (apply Hfresh; by right).
      set_solver.
    + exists e'. split; [done|]. split.
      * rewrite Hval, values_insert_eq. set_solver.
      * intros a Ha. rewrite Hoth by done. by rewrite lookup_insert_ne.
Qed.

Lemma applyChanges_dels name l : ∀ e,
  NoDup l → (∀ v, v ∈ l → v ∈ directory.values e name) →
  ∃ e', directory.applyChanges (map (delChange name) l) e = Some e'
        ∧ directory.values e' name = directory.values e name ∖ list_to_set l
        ∧ ∀ a, a ≠ name → e' !! a = e !! a.
Proof.
  induction l as [|x l IH]; intros e Hnd Hin; cbn [map directory.applyChanges].
  - exists e. split; [done|]. split; [set_solver | done].
  - apply NoDup_cons in Hnd as [Hx Hnd].
    unfold directory.applyChange;
      cbn [delChange ldap.Op ldap.Modification ldap.AttrType ldap.Vals forallb].
    rewrite bool_decide_eq_true_2 by (apply Hin; left). cbn [andb].
    destruct (IH (<[name := directory.values e name ∖ list_to_set [x]]> e))
      as (e' & Hrun & Hval & Hoth).
    + done.
    + intros v Hv. rewrite values_insert_eq.
      assert (v ∈ directory.values e name) by (apply Hin; by right).
      assert (v ≠ x) by (intros ->; done).
      set_solver.
    + exists e'. split; [done|]. split.
      * rewrite Hval, values_insert_eq. set_solver.
      * intros a Ha. rewrite Hoth by done. by rewrite lookup_insert_ne.
Qed.

Lemma setDelta_apply name (P D : gset string) e :
  directory.values e name = P →
  ∃ e', directory.applyChanges (setDelta name P D) e = Some e'
        ∧ directory.values e' name = D
        ∧ ∀ a, a ≠ name → e' !! a = e !! a.
Proof.
  intros HP. unfold setDelta. rewrite applyChanges_app.
  destruct (applyChanges_adds name (elements (D ∖ P)) e) as (e1 & Hrun1 & Hval1 & Hoth1).
  { apply NoDup_elements. }
  { intros v Hv. apply elem_of_elements in Hv. rewrite HP. set_solver. }
  rewrite Hrun1.
  destruct (applyChanges_dels name (elements (P ∖ D)) e1) as (e2 & Hrun2 & Hval2 & Hoth2).
  { apply NoDup_elements. }
  { intros v Hv. apply elem_of_elements in Hv. rewrite Hval1, HP. set_solver. }
  exists e2. split; [done|]. split.
  - rewrite Hval2, Hval1, HP. rewrite !list_to_set_elements_L.
    apply set_eq. intros x.
    rewrite elem_of_difference, elem_of_union, !elem_of_difference.
    destruct (decide (x ∈ P)), (decide (x ∈ D)); tauto.
  - intros a Ha. rewrite Hoth2, Hoth1; done.
Qed.

(** Counting changes. *)

Lemma countChange_app c cs1 cs2 :
  countChange c (cs1 ++ cs2) = (countChange c cs1 + countChange c cs2)%nat.
Proof. unfold countChange. by rewrite filter_app, length_app. Qed.

Lemma countChange_map_inj (f : string → ldap.Change) v l :
  (∀ x y, f x = f y → x = y) → NoDup l →
  countChange (f v) (map f l) = if decide (v ∈ l) then 1%nat else 0%nat.
Proof.
  intros Hinj. unfold countChange.
  induction l as [|x l IH]; intros Hnd; cbn [map].
  - rewrite decide_False by apply not_elem_of_nil. done.
  - apply NoDup_cons in Hnd as [Hx Hnd]. specialize (IH Hnd).
    rewrite filter_cons. destruct (decide (f x = f v)) as [Heq|Hne].
    + apply Hinj in Heq as ->. cbn [length]. rewrite IH.
      rewrite decide_False by done. rewrite decide_True by left. done.
    + rewrite IH. destruct (decide (v ∈ l)) as [Hin|Hnin].
      * rewrite decide_True by (by right). done.
      * rewrite decide_False; [done|].
        intros [->|?]%elem_of_cons; [by apply Hne | done].
Qed.

Lemma countChange_map_other (f : string → ldap.Change) c l :
  (∀ x, f x ≠ c) → countChange c (map f l) = 0%nat.
Proof.
  intros Hne. unfold countChange. induction l as [|x l IH]; cbn [map]; [done|].
  rewrite filter_cons. rewrite decide_False by apply Hne. apply IH.
Qed.

Lemma countChange_setDelta_add name (P D : gset string) v :
  countChange (addChange name v) (setDelta name P D)
  = if decide (v ∈ D ∧ v ∉ P) then 1%nat else 0%nat.
Proof.
  unfold setDelta. rewrite countChange_app.
  rewrite countChange_map_inj; [|by intros x y [= ->]|apply NoDup_elements].
  rewrite countChange_map_other by (intros x; discriminate).
  rewrite Nat.add_0_r.
  destruct (decide (v ∈ elements (D ∖ P))) as [Hin|Hnin].
  - rewrite decide_True; [done|]. apply elem_of_elements in Hin. set_solver.
  - rewrite decide_False; [done|]. intros [? ?]. apply Hnin, elem_of_elements. set_solver.
Qed.

Lemma countChange_setDelta_del name (P D : gset string) v :
  countChange (delChange name v) (setDelta name P D)
  = if decide (v ∈ P ∧ v ∉ D) then 1%nat else 0%nat.
Proof.
  unfold setDelta. rewrite countChange_app.
  rewrite countChange_map_other by (intros x; discriminate).
  rewrite countChange_map_inj; [|by intros x y [= ->]|apply NoDup_elements].
  simpl.
  destruct (decide (v ∈ elements (P ∖ D))) as [Hin|Hnin].
  - rewrite decide_True; [done|]. apply elem_of_elements in Hin. set_solver.
  - rewrite decide_False; [done|]. intros [? ?]. apply Hnin, elem_of_elements. set_solver.
Qed.

Lemma setDelta_shape name (P D : gset string) ch :
  ch ∈ setDelta name P D → ∃ v, ch = addChange name v ∨ ch = delChange name v.
Proof.
  unfold setDelta. intros [Hin|Hin]%elem_of_app.
  - apply list_elem_of_fmap_1 in Hin as (v & -> & _). eauto.
  - apply list_elem_of_fmap_1 in Hin as (v & -> & _). eauto.
Qed.

(** ** The requests of an update and of a read *)

Lemma fold_changes op l req :
  (if (0 <? length l)%nat then
     fold_left (fun r attr =>
        ldap.mkModifyRequest (ldap.ModDN r) (ldap.Changes r ++ [ldap.mkChange op attr])) l req
   else req)
  = ldap.mkModifyRequest (ldap.ModDN req) (ldap.Changes req ++ map (ldap.mkChange op) l).
Proof.
  assert (Hfold : ∀ l req,
    fold_left (fun r attr =>
        ldap.mkModifyRequest (ldap.ModDN r) (ldap.Changes r ++ [ldap.mkChange op attr])) l req
    = ldap.mkModifyRequest (ldap.ModDN req) (ldap.Changes req ++ map (ldap.mkChange op) l)).
  { clear. induction l as [|x l IH]; intros req; simpl.
    - rewrite app_nil_r. by destruct req.
    - rewrite IH. simpl. by rewrite <- app_assoc. }
  destruct l as [|x l].
  - simpl. rewrite app_nil_r. by destruct req.
  - cbn [length Nat.ltb Nat.leb]. apply Hfold.
Qed.

Lemma update_unfold {S} d (c : ldap.Conn S) :
  resourceLDAPGroupUpdate d c
  = let '(err, c1) :=
      ldap.ConnModify c (ldap.mkModifyRequest (dn (new d)) (updateChanges d)) in
    match err with
    | Some err => (Some err, d, c1)
    | None => resourceLDAPGroupRead d c1
    end.
Proof.
  unfold resourceLDAPGroupUpdate.
  rewrite !updateLDAPAttributeSet_changes.
  match goal with
  | |- context [ldap.ConnModify c ?r] =>
      replace r with (ldap.mkModifyRequest (dn (new d)) (updateChanges d)); [done|]
  end.
  unfold updateChanges, bagChanges, GetChange_attributes, scalarChanges.
  destruct (HasChange_attributes d).
  - destruct (computeDeltas (attributes (old d)) (attributes (new d))) as [[added changed] removed].
    rewrite !fold_changes.
    destruct (HasChange_description d), (HasChange_gid_number d);
      cbn; rewrite <- ?app_assoc; reflexivity.
  - destruct (HasChange_description d), (HasChange_gid_number d);
      cbn; rewrite <- ?app_assoc, ?app_nil_r; reflexivity.
Qed.

Lemma read_calls {S} d (c : ldap.Conn S) :
  ldap.calls (snd (resourceLDAPGroupRead d c))
  = ldap.calls c ++ [ldap.CallSearch (searchRequest (dn (new d)))].
Proof.
  unfold resourceLDAPGroupRead, ldap.ConnSearch.
  fold (searchRequest (dn (new d))).
  destruct (ldap.serveSearch S _ _) as [res dir'].
  destruct res as [err|sr].
  - destruct err; try done. by destruct (_ =? _)%N.
  - destruct (ldap.Entries sr) as [|entry rest]; [done|].
    destruct (negb _); [|done]. by destruct (Atoi _).
Qed.

(** ** Set-valued well-known attributes: the claims *)

Lemma wellKnownSets_cases tf name :
  (tf, name) ∈ wellKnownSets →
  (tf = "member" ∧ name = "member") ∨ (tf = "member_uid" ∧ name = "memberUid")
  ∨ (tf = "unique_member" ∧ name = "uniqueMember") ∨ (tf = "member_url" ∧ name = "memberURL").
Proof.
  unfold wellKnownSets. rewrite !elem_of_cons, elem_of_nil.
  intros [H|[H|[H|[H|[]]]]]; apply pair_equal_spec in H; tauto.
Qed.

Lemma stringSet_member f : stringSet f "member" = member f.
Proof. reflexivity. Qed.
Lemma stringSet_member_uid f : stringSet f "member_uid" = member_uid f.
Proof. reflexivity. Qed.
Lemma stringSet_unique_member f : stringSet f "unique_member" = unique_member f.
Proof. reflexivity. Qed.
Lemma stringSet_member_url f : stringSet f "member_url" = member_url f.
Proof. reflexivity. Qed.
Lemma stringSet_object_classes f : stringSet f "object_classes" = object_classes f.
Proof. reflexivity. Qed.

Lemma wellKnownSets_updateChanges d tf name :
  (tf, name) ∈ wellKnownSets →
  ∃ pre post,
    updateChanges d
    = pre ++ setDelta name (stringSet (old d) tf) (stringSet (new d) tf) ++ post.
Proof.
  intros Hin. apply wellKnownSets_cases in Hin.
  unfold updateChanges.
  destruct Hin as [[-> ->]|[[-> ->]|[[-> ->]|[-> ->]]]].
  - rewrite !stringSet_member. exists (scalarChanges d). eexists. reflexivity.
  - rewrite !stringSet_member_uid.
    exists (scalarChanges d ++ setDelta "member" (member (old d)) (member (new d))).
    eexists. rewrite <- app_assoc. reflexivity.
  - rewrite !stringSet_unique_member.
    exists (scalarChanges d ++ setDelta "member" (member (old d)) (member (new d))
            ++ setDelta "memberUid" (member_uid (old d)) (member_uid (new d))).
    eexists. rewrite <- !app_assoc. reflexivity.
  - rewrite !stringSet_member_url.
    exists (scalarChanges d ++ setDelta "member" (member (old d)) (member (new d))
            ++ setDelta "memberUid" (member_uid (old d)) (member_uid (new d))
            ++ setDelta "uniqueMember" (unique_member (old d)) (unique_member (new d))).
    eexists. rewrite <- !app_assoc. reflexivity.
Qed.

(** C1: for each well-known multi-valued attribute, with previous values
    [P] and desired values [D], the update appends exactly one Add change
    per element of [D \ P] and one Delete change per element of [P \ D],
    each carrying that one value, and nothing for a value in both; these
    changes are part of the modify request the update sends; applied to a
    directory entry holding [P] they succeed and leave exactly [D]. *)
Theorem updateLDAPAttributeSet_set_difference (tf name : string) (d : ResourceData)
    (request : ldap.ModifyRequest) :
  (tf, name) ∈ wellKnownSets →
  let P := stringSet (old d) tf in
  let D := stringSet (new d) tf in
  ∃ emitted : list ldap.Change,
    updateLDAPAttributeSet request d tf name
      = (None, ldap.mkModifyRequest (ldap.ModDN request) (ldap.Changes request ++ emitted))
    ∧ (∀ ch, ch ∈ emitted → ∃ v, ch = addChange name v ∨ ch = delChange name v)
    ∧ (∀ v, countChange (addChange name v) emitted
            = if decide (v ∈ D ∧ v ∉ P) then 1%nat else 0%nat)
    ∧ (∀ v, countChange (delChange name v) emitted
            = if decide (v ∈ P ∧ v ∉ D) then 1%nat else 0%nat)
    ∧ (∀ v, v ∈ P → v ∈ D →
            countChange (addChange name v) emitted = 0%nat
            ∧ countChange (delChange name v) emitted = 0%nat)
    ∧ (∀ e, directory.values e name = P →
            ∃ e', directory.applyChanges emitted e = Some e'
                  ∧ directory.values e' name = D
                  ∧ ∀ a, a ≠ name → e' !! a = e !! a)
    ∧ (∀ (S : ldap.Server) (c : ldap.Conn S),
         ∃ pre post rest,
           ldap.calls (snd (resourceLDAPGroupUpdate d c))
           = ldap.calls c
             ++ ldap.CallModify
                  (ldap.mkModifyRequest (dn (new d)) (pre ++ emitted ++ post)) :: rest).
Proof.
  intros Hwk P D. exists (setDelta name P D).
  split; [apply updateLDAPAttributeSet_changes|].
  split; [apply setDelta_shape|].
  split; [apply countChange_setDelta_add|].
  split; [apply countChange_setDelta_del|].
  split.
  { intros v HP HD. rewrite countChange_setDelta_add, countChange_setDelta_del.
    rewrite !decide_False by tauto. done. }
  split; [intros e; apply setDelta_apply|].
  intros S c. destruct (wellKnownSets_updateChanges d tf name Hwk) as (pre & post & Heq).
  exists pre, post. rewrite update_unfold, Heq. unfold ldap.ConnModify.
  destruct (ldap.serveModify S _ _) as [err dir']. destruct err as [err|].
  - exists []. done.
  - eexists. rewrite read_calls. cbn [ldap.calls]. rewrite <- app_assoc. reflexivity.
Qed.

Lemma updateLDAPAttributeSet_set_difference_witness :
  ("member_uid", "memberUid") ∈ wellKnownSets
  ∧ updateLDAPAttributeSet (ldap.NewModifyRequest "cn=mygroup,ou=users,dc=example,dc=com")
      scenarioData "member_uid" "memberUid"
    = (None, ldap.mkModifyRequest "cn=mygroup,ou=users,dc=example,dc=com"
               [addChange "memberUid" "carol"; delChange "memberUid" "alice"])
  ∧ ∃ e', directory.applyChanges
            [addChange "memberUid" "carol"; delChange "memberUid" "alice"]
            {["memberUid" := {["alice"; "bob"]}]} = Some e'
          ∧ directory.values e' "memberUid" = {["bob"; "carol"]}.
Proof.
  assert (Hwk : ("member_uid", "memberUid") ∈ wellKnownSets)
    by (unfold wellKnownSets; set_solver).
  split; [exact Hwk|].
  destruct (updateLDAPAttributeSet_set_difference "member_uid" "memberUid" scenarioData
              (ldap.NewModifyRequest "cn=mygroup,ou=users,dc=example,dc=com") Hwk)
    as (emitted & Hrun & _ & _ & _ & _ & Happly & _).
  assert (Hem : emitted = [addChange "memberUid" "carol"; delChange "memberUid" "alice"]).
  { assert (Hc : updateLDAPAttributeSet
                   (ldap.NewModifyRequest "cn=mygroup,ou=users,dc=example,dc=com")
                   scenarioData "member_uid" "memberUid"
                 = (None, ldap.mkModifyRequest "cn=mygroup,ou=users,dc=example,dc=com"
                            [addChange "memberUid" "carol"; delChange "memberUid" "alice"]))
      by (vm_compute; reflexivity).
    rewrite Hc in Hrun. by injection Hrun as <-. }
  subst emitted. split; [exact Hrun|].
  destruct (Happly {["memberUid" := {["alice"; "bob"]}]}) as (e' & Hrun' & Hval & _).
  - vm_compute. reflexivity.
  - exists e'. split; [exact Hrun'|]. rewrite Hval. vm_compute. reflexivity.
Defined.

(** ** The generic attribute bag: the delta of an update *)

Lemma update_calls {S} d (c : ldap.Conn S) :
  ∃ rest,
    ldap.calls (snd (resourceLDAPGroupUpdate d c))
    = ldap.calls c
      ++ ldap.CallModify (ldap.mkModifyRequest (dn (new d)) (updateChanges d)) :: rest.
Proof.
  rewrite update_unfold. unfold ldap.ConnModify.
  destruct (ldap.serveModify S _ _) as [err dir']. destruct err as [err|].
  - exists []. done.
  - eexists. rewrite read_calls. cbn [ldap.calls]. rewrite <- app_assoc. reflexivity.
Qed.

Lemma setDelta_no_replace name (P D : gset string) ch :
  ch ∈ setDelta name P D → ldap.Op ch ≠ ldap.ReplaceAttribute.
Proof. intros (v & [-> | ->])%setDelta_shape; discriminate. Qed.

Lemma bagChanges_no_replace d ch :
  ch ∈ bagChanges d → ldap.Op ch ≠ ldap.ReplaceAttribute.
Proof.
  unfold bagChanges, computeDeltas. destruct (HasChange_attributes d).
  - cbn [map app]. intros [Hin|Hin]%elem_of_app.
    + apply list_elem_of_fmap_1 in Hin as (a & -> & _). discriminate.
    + apply list_elem_of_fmap_1 in Hin as (a & -> & _). discriminate.
  - by intros ?%elem_of_nil.
Qed.

(** C2: the delta of two generic attribute bags has no changed entries:
    it consists of the added entries, those of the desired bag that the
    previous bag lacks, and of the removed entries, those of the previous
    bag that the desired bag lacks.  A value that changes under a name
    shows up as one added and one removed entry of that name, and the
    update sends no Replace change for the generic attributes. *)
Theorem computeDeltas_added_removed_only (P D : gset (string * string)) :
  ∃ added removed : list ldap.PartialAttribute,
    computeDeltas P D = (added, [], removed)
    ∧ (∀ a, a ∈ added ↔ (∃ e, e ∈ D ∧ (e ∉ P) ∧ a = entryModification e))
    ∧ (∀ r, r ∈ removed ↔ (∃ e, e ∈ P ∧ (e ∉ D) ∧ r = entryModification e))
    ∧ (∀ name v v',
         (name, v) ∈ P → (name, v) ∉ D → (name, v') ∈ D → (name, v') ∉ P →
         ldap.mkPartialAttribute name [v'] ∈ added
         ∧ ldap.mkPartialAttribute name [v] ∈ removed)
    ∧ (∀ (S : ldap.Server) (d : ResourceData) (c : ldap.Conn S) req rest ch,
         ldap.calls (snd (resourceLDAPGroupUpdate d c))
           = ldap.calls c ++ ldap.CallModify req :: rest →
         ch ∈ ldap.Changes req → ldap.Op ch = ldap.ReplaceAttribute →
         ch ∈ scalarChanges d).
Proof.
  exists (map entryModification (elements (D ∖ P))),
         (map entryModification (elements (P ∖ D))).
  split; [reflexivity|].
  assert (Hmem : ∀ (X Y : gset (string * string)) a,
            a ∈ map entryModification (elements (X ∖ Y))
            ↔ (∃ e, e ∈ X ∧ (e ∉ Y) ∧ a = entryModification e)).
  { intros X Y a. split.
    - intros (e & -> & He)%list_elem_of_fmap_1. apply elem_of_elements in He.
      exists e. set_solver.
    - intros (e & HX & HY & ->). apply list_elem_of_fmap_2, elem_of_elements. set_solver. }
  split; [apply Hmem|]. split; [apply Hmem|]. split.
  - intros name v v' HP HnD HD HnP. split; apply Hmem.
    + by exists (name, v').
    + by exists (name, v).
  - intros S d c req rest ch Hcalls Hin Hop.
    destruct (update_calls d c) as (rest' & Heq). rewrite Heq in Hcalls.
    apply app_inv_head in Hcalls. injection Hcalls as <- _.
    cbn [ldap.Changes] in Hin. unfold updateChanges in Hin.
    apply elem_of_app in Hin as [Hin|Hin]; [exact Hin|].
    do 4 (apply elem_of_app in Hin as [Hin|Hin]; [by apply setDelta_no_replace in Hin|]).
    by apply bagChanges_no_replace in Hin.
Qed.

Lemma computeDeltas_added_removed_only_witness :
  let delta := computeDeltas {[ ("mail", "a@x.com") ]} {[ ("mail", "b@x.com") ]} in
  snd (fst delta) = []
  ∧ ldap.mkPartialAttribute "mail" ["b@x.com"] ∈ fst (fst delta)
  ∧ ldap.mkPartialAttribute "mail" ["a@x.com"] ∈ snd delta.
Proof.
  destruct (computeDeltas_added_removed_only {[ ("mail", "a@x.com") ]} {[ ("mail", "b@x.com") ]})
    as (added & removed & Heq & _ & _ & Hchg & _).
  cbv zeta. rewrite Heq. cbn [fst snd]. split; [reflexivity|].
  apply (Hchg "mail" "a@x.com" "b@x.com").
  - by apply elem_of_singleton.
  - rewrite elem_of_singleton; discriminate.
  - by apply elem_of_singleton.
  - rewrite elem_of_singleton; discriminate.
Defined.

(** ** Read: the generic attribute bag *)

Lemma skip_test_handledNames (name : string) :
  (String.eqb name "objectClass" || String.eqb name "cn" || String.eqb name "description"
   || String.eqb name "gidNumber" || String.eqb name "memberUid"
   || String.eqb name "uniqueMember" || String.eqb name "memberURL"
   || String.eqb name "member")
  = bool_decide (name ∈ handledNames).
Proof.
  apply eq_true_iff_eq. rewrite bool_decide_eq_true, !orb_true_iff, !String.eqb_eq.
  unfold handledNames. rewrite !elem_of_cons, elem_of_nil. tauto.
Qed.

Lemma fold_Add_entries (name : string) (vs : list string) (set : gset (string * string)) :
  fold_left (fun set value => set ∪ {[ (name, value) ]}) vs set
  = set ∪ list_to_set (map (pair name) vs).
Proof.
  revert set. induction vs as [|v vs IH]; intros set; cbn [fold_left map list_to_set].
  - set_solver.
  - rewrite IH. set_solver.
Qed.

Lemma readAttribute_contribution dn set a :
  readAttribute dn set a = set ∪ list_to_set (contribution dn a).
Proof.
  unfold readAttribute, contribution, kept. rewrite skip_test_handledNames.
  fold (isRDN dn a).
  destruct (decide (ldap.Name a ∈ handledNames)) as [Hin|Hnin].
  - rewrite (bool_decide_eq_true_2 _ Hin).
    rewrite bool_decide_eq_false_2 by (intros H; by apply H).
    cbn. set_solver.
  - rewrite (bool_decide_eq_false_2 _ Hnin), (bool_decide_eq_true_2 _ Hnin).
    destruct (isRDN dn a); cbn [negb andb].
    + cbn. set_solver.
    + apply fold_Add_entries.
Qed.

Lemma fold_readAttribute dn attrs set :
  fold_left (readAttribute dn) attrs set
  = set ∪ list_to_set (flat_map (contribution dn) attrs).
Proof.
  revert set. induction attrs as [|a attrs IH]; intros set; cbn [fold_left flat_map].
  - set_solver.
  - rewrite IH, readAttribute_contribution, list_to_set_app_L. set_solver.
Qed.

Lemma decodeBag_contributions dn attrs :
  decodeBag dn attrs = list_to_set (flat_map (contribution dn) attrs).
Proof. unfold decodeBag. rewrite fold_readAttribute. set_solver. Qed.

Lemma elem_of_contribution dn a n v :
  (n, v) ∈ contribution dn a
  ↔ ldap.Name a = n ∧ v ∈ ldap.Values a ∧ kept dn a = true.
Proof.
  unfold contribution. destruct (kept dn a).
  - rewrite list_elem_of_fmap. split.
    + intros (x & [= -> ->] & Hx). done.
    + intros (<- & Hv & _). by exists v.
  - rewrite elem_of_nil. split; [done|]. by intros (_ & _ & ?).
Qed.

Lemma elem_of_flat_map {A B} (f : A → list B) (l : list A) (y : B) :
  y ∈ flat_map f l ↔ ∃ x, x ∈ l ∧ y ∈ f x.
Proof.
  rewrite list_elem_of_In, in_flat_map. split.
  - intros (x & Hx & Hy). exists x. by rewrite !list_elem_of_In.
  - intros (x & Hx & Hy). exists x. by rewrite <- !list_elem_of_In.
Qed.

Lemma elem_of_decodeBag dn attrs n v :
  (n, v) ∈ decodeBag dn attrs
  ↔ ∃ a, a ∈ attrs ∧ ldap.Name a = n ∧ v ∈ ldap.Values a ∧ kept dn a = true.
Proof.
  rewrite decodeBag_contributions, elem_of_list_to_set, elem_of_flat_map.
  split.
  - intros (a & Ha & Hin). exists a. split; [done|]. by apply elem_of_contribution.
  - intros (a & Ha & Hrest). exists a. split; [done|]. by apply elem_of_contribution.
Qed.

Lemma kept_true dn a :
  kept dn a = true ↔ (ldap.Name a ∉ handledNames) ∧ isRDN dn a = false.
Proof.
  unfold kept. rewrite andb_true_iff, bool_decide_eq_true, negb_true_iff. tauto.
Qed.

Lemma NoDup_map_eq {A B} (f : A → B) (l : list A) x y :
  NoDup (map f l) → x ∈ l → y ∈ l → f x = f y → x = y.
Proof.
  induction l as [|z l IH]; cbn [map]; intros Hnd Hx Hy Hf.
  - by apply elem_of_nil in Hx.
  - apply NoDup_cons in Hnd as [Hz Hnd].
    apply elem_of_cons in Hx as [->|Hx], Hy as [->|Hy]; [done| | |by apply IH].
    + exfalso. apply Hz. rewrite Hf. by apply list_elem_of_fmap_2.
    + exfalso. apply Hz. rewrite <- Hf. by apply list_elem_of_fmap_2.
Qed.

Lemma NoDup_contributions dn attrs :
  NoDup (map ldap.Name attrs) → (∀ a, a ∈ attrs → NoDup (ldap.Values a)) →
  NoDup (flat_map (contribution dn) attrs).
Proof.
  induction attrs as [|a attrs IH]; cbn [map flat_map]; intros Hnames Hvals.
  - constructor.
  - apply NoDup_cons in Hnames as [Ha Hnames]. apply NoDup_app. split; [|split].
    + unfold contribution. destruct (kept dn a); [|constructor].
      apply (NoDup_fmap_2 (pair (ldap.Name a))). apply Hvals. left.
    + intros [n v] Hin Hin'. apply elem_of_contribution in Hin as (<- & _ & _).
      apply elem_of_flat_map in Hin' as (b & Hb & Hin').
      apply elem_of_contribution in Hin' as (Hname & _ & _).
      apply Ha. rewrite <- Hname. by apply list_elem_of_fmap_2.
    + apply IH; [done|]. intros b Hb. apply Hvals. by right.
Qed.

Lemma length_contributions dn attrs :
  length (flat_map (contribution dn) attrs)
  = sum_list_with (fun a => if kept dn a then length (ldap.Values a) else 0%nat) attrs.
Proof.
  induction attrs as [|a attrs IH]; cbn [flat_map sum_list_with]; [done|].
  rewrite length_app, IH. unfold contribution at 1.
  destruct (kept dn a); [by rewrite length_map | done].
Qed.

(** What a read leaves in the resource data when the search finds an
    entry and the read succeeds. *)
Lemma read_found {S} d (c : ldap.Conn S) sr dir' entry rest d' c' :
  ldap.serveSearch S (searchRequest (dn (new d))) (ldap.dir c) = (inr sr, dir') →
  ldap.Entries sr = entry :: rest →
  resourceLDAPGroupRead d c = (None, d', c') →
  attributes (new d') = decodeBag (dn (new d)) (ldap.EntryAttributes entry)
  ∧ member (new d')
    = (if (0 <? length (ldap.GetAttributeValues entry "member"))%nat
       then list_to_set (ldap.GetAttributeValues entry "memberURL")
       else member (new d))
  ∧ member_uid (new d')
    = (if (0 <? length (ldap.GetAttributeValues entry "memberUid"))%nat
       then list_to_set (ldap.GetAttributeValues entry "memberUid")
       else member_uid (new d))
  ∧ unique_member (new d')
    = (if (0 <? length (ldap.GetAttributeValues entry "uniqueMember"))%nat
       then list_to_set (ldap.GetAttributeValues entry "uniqueMember")
       else unique_member (new d))
  ∧ member_url (new d')
    = (if (0 <? length (ldap.GetAttributeValues entry "memberURL"))%nat
       then list_to_set (ldap.GetAttributeValues entry "memberURL")
       else member_url (new d)).
Proof.
  intros Hsearch Hentries. unfold resourceLDAPGroupRead, ldap.ConnSearch.
  fold (searchRequest (dn (new d))). rewrite Hsearch, Hentries.
  fold (decodeBag (dn (new d)) (ldap.EntryAttributes entry)).
  destruct (negb _).
  - destruct (Atoi _) as [err|gid]; [discriminate|].
    intros [= <- <-].
    repeat match goal with |- context [(0 <? length ?l)%nat] =>
      destruct (0 <? length l)%nat end; repeat split; reflexivity.
  - intros [= <- <-].
    repeat match goal with |- context [(0 <? length ?l)%nat] =>
      destruct (0 <? length l)%nat end; repeat split; reflexivity.
Qed.

(** ** Read: the claims *)

(** C4: an attribute with one value whose [name=value] rendering is a
    prefix of the DN is taken for the RDN: the read loop adds nothing for
    it, and in an entry that names each attribute once no entry for that
    name and value is in the generic bag of the state read. *)
Theorem resourceLDAPGroupRead_skips_RDN {S : ldap.Server} (d : ResourceData)
    (c : ldap.Conn S) (sr : ldap.SearchResult) (dir' : ldap.Directory S)
    (entry : ldap.Entry) (rest : list ldap.Entry) (a : ldap.EntryAttribute) (v : string) :
  ldap.serveSearch S (searchRequest (dn (new d))) (ldap.dir c) = (inr sr, dir') →
  ldap.Entries sr = entry :: rest →
  a ∈ ldap.EntryAttributes entry →
  ldap.Values a = [v] →
  HasPrefix (dn (new d)) (ldap.Name a +:+ "=" +:+ v) = true →
  (∀ set, readAttribute (dn (new d)) set a = set)
  ∧ (NoDup (map ldap.Name (ldap.EntryAttributes entry)) →
     ∀ d' c', resourceLDAPGroupRead d c = (None, d', c') →
              (ldap.Name a, v) ∉ attributes (new d')).
Proof.
  intros Hsearch Hentries Ha Hvals Hprefix.
  assert (Hrdn : isRDN (dn (new d)) a = true) by (unfold isRDN; by rewrite Hvals).
  assert (Hkept : kept (dn (new d)) a = false).
  { unfold kept. rewrite Hrdn. apply andb_false_r. }
  split.
  - intros set. rewrite readAttribute_contribution. unfold contribution.
    rewrite Hkept. set_solver.
  - intros Hnd d' c' Hread.
    destruct (read_found d c sr dir' entry rest d' c' Hsearch Hentries Hread) as (-> & _).
    intros (b & Hb & Hname & _ & Hkeptb)%elem_of_decodeBag.
    assert (b = a) as -> by (eapply NoDup_map_eq; eauto).
    congruence.
Qed.

(** C5: the generic bag of the state read holds no entry under a name
    with a dedicated path (objectClass, cn, description, gidNumber,
    memberUid, uniqueMember, memberURL, member); it holds exactly the
    [(name, value)] entries of the values of the other attributes that
    are not the RDN; and when the entry names each attribute once, with
    distinct values, the bag has as many entries as these attributes have
    values: one per value, none merged. *)
Theorem resourceLDAPGroupRead_generic_bag {S : ldap.Server} (d d' : ResourceData)
    (c c' : ldap.Conn S) (sr : ldap.SearchResult) (dir' : ldap.Directory S)
    (entry : ldap.Entry) (rest : list ldap.Entry) :
  ldap.serveSearch S (searchRequest (dn (new d))) (ldap.dir c) = (inr sr, dir') →
  ldap.Entries sr = entry :: rest →
  resourceLDAPGroupRead d c = (None, d', c') →
  let bag := attributes (new d') in
  let attrs := ldap.EntryAttributes entry in
  (∀ n v, (n, v) ∈ bag → n ∉ handledNames)
  ∧ (∀ a set, a ∈ attrs → ldap.Name a ∈ handledNames →
       readAttribute (dn (new d)) set a = set)
  ∧ (∀ a set, a ∈ attrs → ldap.Name a ∉ handledNames → isRDN (dn (new d)) a = false →
       readAttribute (dn (new d)) set a
       = set ∪ list_to_set (map (pair (ldap.Name a)) (ldap.Values a)))
  ∧ (∀ n v, (n, v) ∈ bag
            ↔ (∃ a, a ∈ attrs ∧ ldap.Name a = n ∧ v ∈ ldap.Values a
                    ∧ (ldap.Name a ∉ handledNames) ∧ isRDN (dn (new d)) a = false))
  ∧ (NoDup (map ldap.Name attrs) → (∀ a, a ∈ attrs → NoDup (ldap.Values a)) →
     size bag
     = sum_list_with
         (fun a => if kept (dn (new d)) a then length (ldap.Values a) else 0%nat) attrs).
Proof.
  intros Hsearch Hentries Hread bag attrs. subst bag attrs.
  destruct (read_found d c sr dir' entry rest d' c' Hsearch Hentries Hread) as (-> & _).
  split; [|split; [|split; [|split]]].
  - intros n v (a & _ & <- & _ & Hk)%elem_of_decodeBag. by apply kept_true in Hk as [? _].
  - intros a set _ Hname. rewrite readAttribute_contribution. unfold contribution, kept.
    rewrite bool_decide_eq_false_2 by (intros H; by apply H). cbn. set_solver.
  - intros a set _ Hname Hrdn. rewrite readAttribute_contribution. unfold contribution.
    by rewrite (proj2 (kept_true _ _) (conj Hname Hrdn)).
  - intros n v. rewrite elem_of_decodeBag. split.
    + intros (a & Ha & Hn & Hv & Hk). apply kept_true in Hk as [? ?]. by exists a.
    + intros (a & Ha & Hn & Hv & H1 & H2). exists a. by rewrite kept_true.
  - intros Hnames Hvals. rewrite decodeBag_contributions.
    rewrite size_list_to_set by (by apply NoDup_contributions).
    apply length_contributions.
Qed.
Lemma resourceLDAPGroupRead_skips_RDN_witness :
  let c := newConn exampleServer () in
  ldap.Values (ldap.mkEntryAttribute "cn" ["mygroup"]) = ["mygroup"]
  ∧ HasPrefix (dn (new scenarioData)) ("cn" +:+ "=" +:+ "mygroup") = true
  ∧ ("cn", "mygroup") ∉ attributes (new (snd (fst (resourceLDAPGroupRead scenarioData c)))).
Proof.
  intros c. split; [reflexivity|]. split; [reflexivity|].
  refine (proj2 (resourceLDAPGroupRead_skips_RDN (S := exampleServer) scenarioData c
                   (ldap.mkSearchResult [exampleEntry]) () exampleEntry []
                   (ldap.mkEntryAttribute "cn" ["mygroup"]) "mygroup" _ _ _ _ _)
                _ _ (snd (resourceLDAPGroupRead scenarioData c)) _).
  - reflexivity.
  - reflexivity.
  - unfold exampleEntry. cbn [ldap.EntryAttributes]. right. left.
  - reflexivity.
  - reflexivity.
  - apply (bool_decide_unpack _). vm_compute. exact I.
  - vm_compute. reflexivity.
Defined.

Lemma resourceLDAPGroupRead_generic_bag_witness :
  let c := newConn exampleServer () in
  let bag := attributes (new (snd (fst (resourceLDAPGroupRead scenarioData c)))) in
  size bag = 3%nat ∧ ("cn", "mygroup") ∉ bag.
Proof.
  intros c bag.
  assert (Hread : resourceLDAPGroupRead scenarioData c
                  = (None, snd (fst (resourceLDAPGroupRead scenarioData c)),
                     snd (resourceLDAPGroupRead scenarioData c)))
    by (vm_compute; reflexivity).
  destruct (resourceLDAPGroupRead_generic_bag (S := exampleServer) scenarioData _ c _
              (ldap.mkSearchResult [exampleEntry]) () exampleEntry []
              eq_refl eq_refl Hread) as (Hnames & _ & _ & _ & Hsize).
  split.
  - subst bag. rewrite Hsize.
    + vm_compute. reflexivity.
    + apply (bool_decide_unpack _). vm_compute. exact I.
    + apply Forall_forall. apply (bool_decide_unpack _). vm_compute. exact I.
  - intros Hin. apply Hnames in Hin. apply Hin. unfold handledNames. right. left.
Defined.
(** C9: a read whose search fails with the result code of no such
    object, or finds no entry, clears the identity of the resource and
    returns no error; any other failure of the search is returned as it
    is, the resource data unchanged. *)
Theorem resourceLDAPGroupRead_not_found {S : ldap.Server} (d : ResourceData)
    (c : ldap.Conn S) (res : error + ldap.SearchResult) (dir' : ldap.Directory S) :
  ldap.serveSearch S (searchRequest (dn (new d))) (ldap.dir c) = (res, dir') →
  let c' := ldap.mkConn dir' (ldap.calls c ++ [ldap.CallSearch (searchRequest (dn (new d)))]) in
  (∀ msg, res = inl (LdapError ldap.LDAPResultNoSuchObject msg) →
     resourceLDAPGroupRead d c = (None, SetId d "", c'))
  ∧ (∀ sr, res = inr sr → ldap.Entries sr = [] →
     resourceLDAPGroupRead d c = (None, SetId d "", c'))
  ∧ (∀ err, res = inl err → (∀ msg, err ≠ LdapError ldap.LDAPResultNoSuchObject msg) →
     resourceLDAPGroupRead d c = (Some err, d, c'))
  ∧ Id (SetId d "") = "".
Proof.
  intros Hsearch c'. subst c'.
  unfold resourceLDAPGroupRead, ldap.ConnSearch. fold (searchRequest (dn (new d))).
  rewrite Hsearch. repeat split.
  - intros msg ->. reflexivity.
  - intros sr -> ->. reflexivity.
  - intros err -> Hne. destruct err as [| code msg | |]; try reflexivity.
    destruct (N.eqb_spec code ldap.LDAPResultNoSuchObject) as [->|]; [|reflexivity].
    by destruct (Hne msg).
Qed.

Lemma resourceLDAPGroupRead_not_found_witness :
  let S := stubServer None (inl (LdapError 32 "No Such Object")) in
  resourceLDAPGroupRead (S := S) scenarioData (newConn S ())
  = (None, SetId scenarioData "",
     ldap.mkConn (S := S) ()
       [ldap.CallSearch (searchRequest "cn=mygroup,ou=users,dc=example,dc=com")]).
Proof.
  intros S.
  exact (proj1 (resourceLDAPGroupRead_not_found (S := S) scenarioData (newConn S ())
                  (inl (LdapError 32 "No Such Object")) () eq_refl)
               "No Such Object" eq_refl).
Defined.

(** The state of [member] after a read that finds an entry carrying
    member values: the values of [memberURL]. *)
Lemma read_member_state {S} d (c : ldap.Conn S) sr dir' entry rest d' c' :
  ldap.serveSearch S (searchRequest (dn (new d))) (ldap.dir c) = (inr sr, dir') →
  ldap.Entries sr = entry :: rest →
  resourceLDAPGroupRead d c = (None, d', c') →
  ldap.GetAttributeValues entry "member" ≠ [] →
  member (new d') = list_to_set (ldap.GetAttributeValues entry "memberURL").
Proof.
  intros Hsearch Hentries Hread Hne.
  destruct (read_found d c sr dir' entry rest d' c' Hsearch Hentries Hread) as (_ & -> & _).
  by destruct (ldap.GetAttributeValues entry "member").
Qed.

(** C3, at an entry with one member and one memberURL value: the read
    succeeds and leaves in [member] the memberURL value, not the member
    value the entry carries. *)
Theorem resourceLDAPGroupRead_member_from_memberURL :
  let c := newConn memberServer () in
  let d' := snd (fst (resourceLDAPGroupRead scenarioData c)) in
  fst (fst (resourceLDAPGroupRead scenarioData c)) = None
  ∧ ldap.GetAttributeValues memberEntry "member" = ["uid=alice,ou=users,dc=example,dc=com"]
  ∧ member (new d') = {["ldap:///ou=users,dc=example,dc=com??sub?(uid=*)"]}
  ∧ member_url (new d') = {["ldap:///ou=users,dc=example,dc=com??sub?(uid=*)"]}
  ∧ member (new d') ≠ list_to_set (ldap.GetAttributeValues memberEntry "member").
Proof.
  intros c d'. subst d'.
  split; [vm_compute; reflexivity|]. split; [reflexivity|].
  repeat split; apply (bool_decide_unpack _); vm_compute; exact I.
Qed.

(** ** Create: its structure *)

Lemma fold_append_list {A} (l acc : list A) :
  fold_left (fun ocs oc => ocs ++ [oc]) l acc = acc ++ l.
Proof.
  revert acc. induction l as [|x l IH]; intros acc; cbn [fold_left].
  - by rewrite app_nil_r.
  - rewrite IH, <- app_assoc. reflexivity.
Qed.

Lemma create_unfold {S} d (c : ldap.Conn S) :
  resourceLDAPGroupCreate d c
  = let errors := validateObjectClasses (createObjectClasses d) d in
    if (0 <? length errors)%nat then (Some (validationFailed (dn (new d)) errors), d, c)
    else
      match deriveCNFromDN (dn (new d)) with
      | inl err => (Some err, d, c)
      | inr cn =>
          let '(err, c1) := ldap.ConnAdd c (createRequest d cn) in
          match err with
          | Some err => (Some err, d, c1)
          | None => resourceLDAPGroupRead (SetId d (dn (new d))) c1
          end
      end.
Proof.
  unfold resourceLDAPGroupCreate.
  assert (Hoc : (let '(v, ok) := GetOk_set d "object_classes" in
                 if ok then fold_left (fun ocs oc => ocs ++ [oc]) (elements v) []
                 else ["posixGroup"]) = createObjectClasses d).
  { unfold createObjectClasses, GetOk_set. cbn [snd]. rewrite fold_append_list.
    rewrite stringSet_object_classes. reflexivity. }
  rewrite Hoc. reflexivity.
Qed.

Lemma Attribute_prefix p req t vs :
  p `prefix_of` ldap.Attributes req →
  p `prefix_of` ldap.Attributes (ldap.AddRequest_Attribute req t vs).
Proof. intros Hp. cbn [ldap.AddRequest_Attribute ldap.Attributes]. by apply prefix_app_r. Qed.

Lemma Attribute_prefix_if p req t vs (b : bool) :
  p `prefix_of` ldap.Attributes req →
  p `prefix_of` ldap.Attributes (if b then ldap.AddRequest_Attribute req t vs else req).
Proof. destruct b; [apply Attribute_prefix | done]. Qed.

Lemma Attribute_prefix_fold p (l : list (string * list string)) req :
  p `prefix_of` ldap.Attributes req →
  p `prefix_of` ldap.Attributes
      (fold_left (fun request nv => ldap.AddRequest_Attribute request (fst nv) (snd nv)) l req).
Proof.
  revert req. induction l as [|x l IH]; intros req Hp; cbn [fold_left]; [done|].
  by apply IH, Attribute_prefix.
Qed.

Lemma createRequest_attributes d cn :
  ∃ others,
    ldap.Attributes (createRequest d cn)
    = ldap.mkAttribute "objectClass" (createObjectClasses d)
      :: ldap.mkAttribute "cn" [cn] :: others.
Proof.
  assert (Hp : [ldap.mkAttribute "objectClass" (createObjectClasses d);
                ldap.mkAttribute "cn" [cn]]
               `prefix_of` ldap.Attributes (createRequest d cn)).
  { unfold createRequest, GetOk_description, GetOk_gid_number, GetOk_set, GetOk_attributes.
    cbv zeta.
    destruct (negb (bool_decide (attributes (new d) = ∅)));
      [destruct (0 <? length (elements (attributes (new d))))%nat;
         [apply Attribute_prefix_fold|]|];
      do 6 apply Attribute_prefix_if; done. }
  destruct Hp as [others Heq]. exists others. exact Heq.
Qed.

Lemma create_calls {S} d (c : ldap.Conn S) cn :
  validateObjectClasses (createObjectClasses d) d = [] →
  deriveCNFromDN (dn (new d)) = inr cn →
  ∃ rest,
    ldap.calls (snd (resourceLDAPGroupCreate d c))
    = ldap.calls c ++ ldap.CallAdd (createRequest d cn) :: rest.
Proof.
  intros Hval Hcn. rewrite create_unfold. cbv zeta. rewrite Hval, Hcn. cbn [length Nat.ltb Nat.leb].
  unfold ldap.ConnAdd. destruct (ldap.serveAdd S _ _) as [err dir']. destruct err as [err|].
  - exists []. reflexivity.
  - eexists. rewrite read_calls. cbn [ldap.calls]. rewrite <- app_assoc. reflexivity.
Qed.

Lemma create_no_call {S} d (c : ldap.Conn S) :
  validateObjectClasses (createObjectClasses d) d ≠ []
  ∨ (∃ err, deriveCNFromDN (dn (new d)) = inl err) →
  ∃ err, resourceLDAPGroupCreate d c = (Some err, d, c).
Proof.
  intros Hfail. rewrite create_unfold. cbv zeta.
  destruct (validateObjectClasses (createObjectClasses d) d) as [|e errors] eqn:Hval.
  - destruct Hfail as [Hne|[err Herr]]; [done|]. rewrite Herr. cbn. eauto.
  - cbn [length Nat.ltb Nat.leb]. eauto.
Qed.

(** ** Validation of the required attributes *)

Lemma validate_fold d ocs acc :
  fold_left
    (fun errors objectClass =>
       if String.eqb objectClass "posixGroup" then
         if negb (snd (GetOk_gid_number d)) then errors ++ [missingGidNumber]
         else errors
       else errors) ocs acc
  = acc ++ (if snd (GetOk_gid_number d) then []
            else repeat missingGidNumber
                   (length (filter (fun oc => oc = "posixGroup") ocs))).
Proof.
  revert acc. induction ocs as [|oc ocs IH]; intros acc; cbn [fold_left].
  - destruct (snd _); cbn; by rewrite app_nil_r.
  - rewrite IH, filter_cons. destruct (String.eqb_spec oc "posixGroup") as [->|Hne].
    + rewrite decide_True by done. destruct (snd (GetOk_gid_number d)); cbn [negb length repeat].
      * reflexivity.
      * rewrite <- app_assoc. reflexivity.
    + rewrite decide_False by done. reflexivity.
Qed.

Lemma validateObjectClasses_count d ocs :
  validateObjectClasses ocs d
  = if snd (GetOk_gid_number d) then []
    else repeat missingGidNumber (length (filter (fun oc => oc = "posixGroup") ocs)).
Proof. unfold validateObjectClasses. fold missingGidNumber. by rewrite validate_fold. Qed.

Lemma filter_eq_NoDup (x : string) (l : list string) :
  NoDup l → x ∈ l → filter (fun y => y = x) l = [x].
Proof.
  induction l as [|y l IH]; intros Hnd Hin.
  - by apply elem_of_nil in Hin.
  - apply NoDup_cons in Hnd as [Hy Hnd]. rewrite filter_cons.
    destruct (decide (y = x)) as [->|Hne].
    + f_equal. clear IH Hin. induction l as [|z l IH]; [done|].
      rewrite filter_cons. rewrite decide_False.
      * apply IH; [set_solver|]. by apply NoDup_cons in Hnd as [_ ?].
      * intros ->. apply Hy. left.
    + apply IH; [done|]. by apply elem_of_cons in Hin as [->|Hin].
Qed.

Lemma NoDup_createObjectClasses d : NoDup (createObjectClasses d).
Proof.
  unfold createObjectClasses. destruct (snd _).
  - apply NoDup_elements.
  - apply NoDup_singleton.
Qed.

(** C6, as amended: validation returns one error for each object class
    whose requirement is violated, going through the whole list.  A
    gid_number counts as present when [GetOk] reports it, that is when
    it is not zero: with a gid_number that is absent or zero, a list
    naming posixGroup once, as every list a create validates does,
    yields exactly the one error that names gid_number and posixGroup;
    with a gid_number other than zero it yields none. *)
Theorem validateObjectClasses_errors (d : ResourceData) (objectClasses : list string) :
  validateObjectClasses objectClasses d
    = (if snd (GetOk_gid_number d) then []
       else repeat missingGidNumber
              (length (filter (fun oc => oc = "posixGroup") objectClasses)))
  ∧ (snd (GetOk_gid_number d) = false → NoDup objectClasses →
     "posixGroup" ∈ objectClasses →
     validateObjectClasses objectClasses d
     = [Errorf "missing required attribute 'gid_number' for objectClass 'posixGroup'" []])
  ∧ (snd (GetOk_gid_number d) = true → validateObjectClasses objectClasses d = [])
  ∧ NoDup (createObjectClasses d)
  ∧ (snd (GetOk_gid_number d) = false → "posixGroup" ∈ createObjectClasses d →
     validateObjectClasses (createObjectClasses d) d = [missingGidNumber])
  ∧ (snd (GetOk_gid_number d) = true ↔ gid_number (new d) ≠ 0).
Proof.
  assert (Hone : ∀ ocs, snd (GetOk_gid_number d) = false → NoDup ocs → "posixGroup" ∈ ocs →
                        validateObjectClasses ocs d = [missingGidNumber]).
  { intros ocs Hgid Hnd Hin. rewrite validateObjectClasses_count, Hgid.
    by rewrite filter_eq_NoDup. }
  split; [apply validateObjectClasses_count|].
  split; [apply Hone|].
  split; [intros Hgid; by rewrite validateObjectClasses_count, Hgid|].
  split; [apply NoDup_createObjectClasses|].
  split.
  - intros Hgid Hin. apply Hone; [done|apply NoDup_createObjectClasses|done].
  - unfold GetOk_gid_number. cbn [snd]. by rewrite negb_true_iff, Z.eqb_neq.
Qed.

Lemma validateObjectClasses_errors_witness :
  validateObjectClasses ["posixGroup"] (Set_gid_number scenarioData 0) = [missingGidNumber]
  ∧ validateObjectClasses ["posixGroup"] (Set_gid_number scenarioData 1000) = [].
Proof.
  split.
  - apply (proj1 (proj2 (validateObjectClasses_errors (Set_gid_number scenarioData 0)
                           ["posixGroup"]))).
    + reflexivity.
    + apply NoDup_singleton.
    + left.
  - apply (proj1 (proj2 (proj2 (validateObjectClasses_errors
                                  (Set_gid_number scenarioData 1000) ["posixGroup"])))).
    reflexivity.
Defined.

(** C6, as first stated, fails for a gid_number supplied as zero: zero is
    the zero value of the field, [GetOk] reports it as not set, and the
    validation of posixGroup returns its error. *)
Lemma validateObjectClasses_gid_number_zero :
  gid_number (new (Set_gid_number scenarioData 0)) = 0
  ∧ validateObjectClasses ["posixGroup"] (Set_gid_number scenarioData 0)
    = [missingGidNumber]
  ∧ validateObjectClasses ["posixGroup"] (Set_gid_number scenarioData 0) ≠ [].
Proof. split; [reflexivity|]. split; [reflexivity|discriminate]. Qed.

(** ** Create: the claims *)

(** C7: a create whose validation fails, or whose DN yields no CN,
    returns an error and leaves the connection as it was: no request has
    reached the directory, whose state is unchanged, and neither is the
    resource data. *)
Theorem resourceLDAPGroupCreate_fails_before_any_call {S : ldap.Server}
    (d : ResourceData) (c : ldap.Conn S) :
  validateObjectClasses (createObjectClasses d) d ≠ []
  ∨ (∃ err, deriveCNFromDN (dn (new d)) = inl err) →
  (∃ err, resourceLDAPGroupCreate d c = (Some err, d, c))
  ∧ ldap.calls (snd (resourceLDAPGroupCreate d c)) = ldap.calls c
  ∧ ldap.dir (snd (resourceLDAPGroupCreate d c)) = ldap.dir c.
Proof.
  intros Hfail. destruct (create_no_call d c Hfail) as [err Heq].
  rewrite Heq. eauto.
Qed.

Lemma resourceLDAPGroupCreate_fails_before_any_call_witness :
  deriveCNFromDN (dn (new noCNData)) = inl (Errorf "CN not found in DN" [])
  ∧ ldap.calls (snd (resourceLDAPGroupCreate noCNData (newConn exampleServer ()))) = [].
Proof.
  split; [reflexivity|].
  apply (proj1 (proj2 (resourceLDAPGroupCreate_fails_before_any_call (S := exampleServer)
                         noCNData (newConn exampleServer ())
                         (or_intror (ex_intro _ (Errorf "CN not found in DN" []) eq_refl))))).
Defined.

(** C10: a create whose desired state gives no object classes works with
    the list holding posixGroup alone: it validates against that list, so
    that without a gid_number it fails, before any call, with the error
    of the missing gid_number, and it can only succeed with a gid_number;
    the add request it sends carries objectClass with that list. *)
Theorem resourceLDAPGroupCreate_default_object_classes {S : ldap.Server}
    (d : ResourceData) (c : ldap.Conn S) :
  snd (GetOk_set d "object_classes") = false →
  createObjectClasses d = ["posixGroup"]
  ∧ (snd (GetOk_gid_number d) = false →
     resourceLDAPGroupCreate d c
     = (Some (validationFailed (dn (new d)) [missingGidNumber]), d, c))
  ∧ (∀ d' c', resourceLDAPGroupCreate d c = (None, d', c') →
              snd (GetOk_gid_number d) = true)
  ∧ (∀ req rest,
       ldap.calls (snd (resourceLDAPGroupCreate d c))
         = ldap.calls c ++ ldap.CallAdd req :: rest →
       ∃ others,
         ldap.Attributes req = ldap.mkAttribute "objectClass" ["posixGroup"] :: others)
  ∧ (snd (GetOk_gid_number d) = true →
     ∀ cn, deriveCNFromDN (dn (new d)) = inr cn →
           ∃ req rest,
             ldap.calls (snd (resourceLDAPGroupCreate d c))
               = ldap.calls c ++ ldap.CallAdd req :: rest
             ∧ ldap.mkAttribute "objectClass" ["posixGroup"] ∈ ldap.Attributes req).
Proof.
  intros Hoc.
  assert (Hdef : createObjectClasses d = ["posixGroup"]).
  { unfold createObjectClasses. by rewrite Hoc. }
  assert (Hval : validateObjectClasses (createObjectClasses d) d
                 = if snd (GetOk_gid_number d) then [] else [missingGidNumber]).
  { rewrite Hdef, validateObjectClasses_count. reflexivity. }
  split; [exact Hdef|]. split; [|split; [|split]].
  - intros Hgid. rewrite create_unfold. cbv zeta. rewrite Hval, Hgid. reflexivity.
  - intros d' c' Hrun. destruct (snd (GetOk_gid_number d)) eqn:Hgid; [done|].
    rewrite create_unfold in Hrun. cbv zeta in Hrun. rewrite Hval in Hrun. discriminate Hrun.
  - intros req rest Hcalls.
    destruct (snd (GetOk_gid_number d)) eqn:Hgid.
    + destruct (deriveCNFromDN (dn (new d))) as [err|cn] eqn:Hcn.
      * destruct (create_no_call d c (or_intror (ex_intro _ err Hcn))) as [e Heq].
        rewrite Heq in Hcalls. cbn [snd] in Hcalls.
        rewrite <- (app_nil_r (ldap.calls c)) in Hcalls at 1.
        apply app_inv_head in Hcalls. discriminate Hcalls.
      * destruct (create_calls d c cn Hval Hcn) as [rest' Heq].
        rewrite Heq in Hcalls. apply app_inv_head in Hcalls. injection Hcalls as <- _.
        destruct (createRequest_attributes d cn) as [others Hattrs].
        rewrite Hdef in Hattrs. eauto.
    + assert (Hne : validateObjectClasses (createObjectClasses d) d ≠ [])
        by (rewrite Hval; discriminate).
      destruct (create_no_call d c (or_introl Hne)) as [e Heq].
      rewrite Heq in Hcalls. cbn [snd] in Hcalls.
      rewrite <- (app_nil_r (ldap.calls c)) in Hcalls at 1.
      apply app_inv_head in Hcalls. discriminate Hcalls.
  - intros Hgid cn Hcn. rewrite Hgid in Hval.
    destruct (create_calls d c cn Hval Hcn) as [rest Heq].
    exists (createRequest d cn), rest. split; [exact Heq|].
    destruct (createRequest_attributes d cn) as [others Hattrs].
    rewrite Hattrs, Hdef. left.
Qed.

Lemma resourceLDAPGroupCreate_default_object_classes_witness :
  snd (GetOk_set (defaultClassData 0) "object_classes") = false
  ∧ resourceLDAPGroupCreate (defaultClassData 0) (newConn exampleServer ())
    = (Some (validationFailed "cn=mygroup,ou=users,dc=example,dc=com" [missingGidNumber]),
       defaultClassData 0, newConn exampleServer ())
  ∧ ∃ req rest,
      ldap.calls (snd (resourceLDAPGroupCreate (defaultClassData 1000)
                         (newConn exampleServer ())))
        = ldap.CallAdd req :: rest
      ∧ ldap.mkAttribute "objectClass" ["posixGroup"] ∈ ldap.Attributes req.
Proof.
  split; [reflexivity|]. split.
  - apply (proj1 (proj2 (resourceLDAPGroupCreate_default_object_classes (S := exampleServer)
                           (defaultClassData 0) (newConn exampleServer ()) eq_refl))).
    reflexivity.
  - apply (proj2 (proj2 (proj2 (proj2
             (resourceLDAPGroupCreate_default_object_classes (S := exampleServer)
                (defaultClassData 1000) (newConn exampleServer ()) eq_refl))))
           eq_refl "mygroup" eq_refl).
Defined.

(** ** The CN of a DN *)

Lemma SplitN2_whole (s : string) :
  containsByte "," s = false → SplitN2 "," s = [s].
Proof.
  induction s as [|c s IH]; cbn [containsByte SplitN2]; [done|].
  intros [Hc Hs]%orb_false_iff. rewrite Hc, (IH Hs). reflexivity.
Qed.

Lemma SplitN2_cut (comp rest : string) :
  containsByte "," comp = false →
  SplitN2 "," (comp +:+ String "," rest) = [comp; rest].
Proof.
  induction comp as [|c comp IH]; simpl.
  - reflexivity.
  - intros [Hc Hs]%orb_false_iff. rewrite Hc, (IH Hs). reflexivity.
Qed.

Lemma SplitN2_first (dnv comp : string) :
  FirstComponent dnv comp → ∃ tl, SplitN2 "," dnv = comp :: tl.
Proof.
  intros [s Hs|c rest Hc].
  - exists []. by apply SplitN2_whole.
  - exists [rest]. by apply SplitN2_cut.
Qed.

Lemma FirstComponent_exists (dnv : string) : ∃ comp, FirstComponent dnv comp.
Proof.
  induction dnv as [|c s [comp IH]].
  - exists "". by constructor.
  - destruct (Ascii.eqb c ",") eqn:Hc.
    + apply Ascii.eqb_eq in Hc as ->. exists "". by apply (first_cut "" s).
    + exists (String c comp). inversion IH as [s' Hs|comp' rest Hcomp]; subst.
      * constructor. cbn [containsByte]. by rewrite Hc.
      * apply (first_cut (String c comp) rest). cbn [containsByte]. by rewrite Hc.
Qed.

Lemma upperByte_eqb (c : ascii) :
  (Ascii.eqb (upperByte c) "C" = Ascii.eqb c "c" || Ascii.eqb c "C")
  ∧ (Ascii.eqb (upperByte c) "N" = Ascii.eqb c "n" || Ascii.eqb c "N")
  ∧ (Ascii.eqb (upperByte c) "=" = Ascii.eqb c "=").
Proof. destruct c as [[] [] [] [] [] [] [] []]; vm_compute; done. Qed.

Lemma upperByte_C (c : ascii) : upperByte c = "C"%char ↔ c = "c"%char ∨ c = "C"%char.
Proof.
  rewrite <- !Ascii.eqb_eq, (proj1 (upperByte_eqb c)), orb_true_iff. reflexivity.
Qed.

Lemma upperByte_N (c : ascii) : upperByte c = "N"%char ↔ c = "n"%char ∨ c = "N"%char.
Proof.
  rewrite <- !Ascii.eqb_eq, (proj1 (proj2 (upperByte_eqb c))), orb_true_iff. reflexivity.
Qed.

Lemma upperByte_equals (c : ascii) : upperByte c = "="%char ↔ c = "="%char.
Proof. rewrite <- !Ascii.eqb_eq, (proj2 (proj2 (upperByte_eqb c))). reflexivity. Qed.

Lemma HasPrefix_CN (comp : string) :
  HasPrefix (ToUpper comp) "CN=" = true ↔ CNPair comp (sliceFrom 3 comp).
Proof.
  unfold HasPrefix, CNPair. split.
  - destruct comp as [|c [|n [|e v]]]; cbn [ToUpper String.prefix]; try discriminate.
    + destruct (ascii_dec _ _); discriminate.
    + destruct (ascii_dec _ _); [destruct (ascii_dec _ _)|]; discriminate.
    + destruct (ascii_dec "C" (upperByte c)) as [Hc|]; [|discriminate].
      destruct (ascii_dec "N" (upperByte n)) as [Hn|]; [|discriminate].
      destruct (ascii_dec "=" (upperByte e)) as [He|]; [|discriminate].
      intros _. symmetry in Hc, Hn, He.
      apply upperByte_C in Hc. apply upperByte_N in Hn. apply upperByte_equals in He as ->.
      exists c, n. cbn [sliceFrom]. done.
  - intros (c & n & Heq & Hc & Hn). rewrite Heq. cbn [ToUpper String.prefix].
    apply upperByte_C in Hc as ->. apply upperByte_N in Hn as ->.
    rewrite (proj2 (upperByte_equals "=") eq_refl).
    repeat (destruct (ascii_dec _ _); [|done]).
    by destruct (ToUpper _).
Qed.

Lemma CNPair_value (comp value : string) :
  CNPair comp value → value = sliceFrom 3 comp.
Proof. intros (c & n & -> & _). reflexivity. Qed.

(** C8: the derivation of the CN fails exactly when the first
    comma-separated component of the DN is no [cn=value] pair, and when
    it succeeds its result is the text of that component after [cn=];
    the add request of a create that gets this far names objectClass,
    with the object classes, and cn, with the derived CN. *)
Theorem deriveCNFromDN_leading_component (dnv comp : string) :
  FirstComponent dnv comp →
  ((∃ err, deriveCNFromDN dnv = inl err) ↔ ¬ (∃ value, CNPair comp value))
  ∧ (∀ cn, deriveCNFromDN dnv = inr cn ↔ CNPair comp cn)
  ∧ (∀ (S : ldap.Server) (d : ResourceData) (c : ldap.Conn S) (cn : string),
       dn (new d) = dnv →
       validateObjectClasses (createObjectClasses d) d = [] →
       deriveCNFromDN dnv = inr cn →
       ∃ req rest,
         ldap.calls (snd (resourceLDAPGroupCreate d c))
           = ldap.calls c ++ ldap.CallAdd req :: rest
         ∧ ldap.mkAttribute "objectClass" (createObjectClasses d) ∈ ldap.Attributes req
         ∧ ldap.mkAttribute "cn" [cn] ∈ ldap.Attributes req).
Proof.
  intros Hfirst. destruct (SplitN2_first dnv comp Hfirst) as [tl Hsplit].
  assert (Hcn : ∀ cn, deriveCNFromDN dnv = inr cn ↔ CNPair comp cn).
  { intros cn. unfold deriveCNFromDN. rewrite Hsplit.
    destruct (HasPrefix (ToUpper comp) "CN=") eqn:Hp.
    - apply HasPrefix_CN in Hp. split.
      + by intros [= <-].
      + by intros ->%CNPair_value.
    - split; [discriminate|]. intros Hpair.
      rewrite (CNPair_value _ _ Hpair) in Hpair. apply HasPrefix_CN in Hpair. congruence. }
  split; [|split; [exact Hcn|]].
  - split.
    + intros [err Herr] [value Hpair]. apply Hcn in Hpair. congruence.
    + intros Hno. destruct (deriveCNFromDN dnv) as [err|cn] eqn:Hd; [eauto|].
      destruct Hno. exists cn. by apply Hcn.
  - intros S d c cn <- Hval Hd.
    destruct (create_calls d c cn Hval Hd) as [rest Heq].
    destruct (createRequest_attributes d cn) as [others Hattrs].
    exists (createRequest d cn), rest. split; [exact Heq|].
    rewrite Hattrs. split; [left | right; left].
Qed.

Lemma deriveCNFromDN_leading_component_witness :
  FirstComponent "cn=mygroup,ou=users,dc=example,dc=com" "cn=mygroup"
  ∧ deriveCNFromDN "cn=mygroup,ou=users,dc=example,dc=com" = inr "mygroup"
  ∧ ∃ req rest,
      ldap.calls (snd (resourceLDAPGroupCreate (defaultClassData 1000)
                         (newConn exampleServer ())))
        = ldap.CallAdd req :: rest
      ∧ ldap.mkAttribute "objectClass" ["posixGroup"] ∈ ldap.Attributes req
      ∧ ldap.mkAttribute "cn" ["mygroup"] ∈ ldap.Attributes req.
Proof.
  assert (Hfirst : FirstComponent "cn=mygroup,ou=users,dc=example,dc=com" "cn=mygroup")
    by (apply (first_cut "cn=mygroup" "ou=users,dc=example,dc=com"); reflexivity).
  split; [exact Hfirst|].
  destruct (deriveCNFromDN_leading_component _ _ Hfirst) as (_ & Hcn & Hcreate).
  assert (Hd : deriveCNFromDN "cn=mygroup,ou=users,dc=example,dc=com" = inr "mygroup").
  { apply Hcn. exists "c"%char, "n"%char. split; [reflexivity|]. split; by left. }
  split; [exact Hd|].
  apply (Hcreate exampleServer (defaultClassData 1000) (newConn exampleServer ()) "mygroup"
           eq_refl eq_refl Hd).
Defined.

(** * Further properties of the resource *)

(** ** Update *)

Lemma setDelta_same name (X : gset string) : setDelta name X X = [].
Proof. unfold setDelta. by rewrite difference_diag_L, elements_empty. Qed.

(** X1: an update in which the description, the gid_number, the four
    member sets and the generic attributes are unchanged still sends its
    modify request, with no change in it.  This holds whatever the
    object classes of the two states are: a change of the object_classes
    field alone reaches the directory as an empty modify request. *)
Theorem resourceLDAPGroupUpdate_nothing_changed {S : ldap.Server} (d : ResourceData)
    (c : ldap.Conn S) :
  description (old d) = description (new d) →
  gid_number (old d) = gid_number (new d) →
  member (old d) = member (new d) →
  member_uid (old d) = member_uid (new d) →
  unique_member (old d) = unique_member (new d) →
  member_url (old d) = member_url (new d) →
  attributes (old d) = attributes (new d) →
  ∃ rest,
    ldap.calls (snd (resourceLDAPGroupUpdate d c))
    = ldap.calls c ++ ldap.CallModify (ldap.mkModifyRequest (dn (new d)) []) :: rest.
Proof.
  intros Hdesc Hgid Hm Hmu Hum Hurl Hattrs.
  destruct (update_calls d c) as [rest Heq]. exists rest. rewrite Heq.
  assert (Hnone : updateChanges d = []); [|by rewrite Hnone].
  unfold updateChanges, scalarChanges, bagChanges,
    HasChange_description, HasChange_gid_number, HasChange_attributes.
  rewrite Hdesc, Hgid, Hm, Hmu, Hum, Hurl, Hattrs, !setDelta_same.
  rewrite String.eqb_refl, Z.eqb_refl.
  rewrite bool_decide_eq_false_2 by (intros H; by apply H). reflexivity.
Qed.

Lemma resourceLDAPGroupUpdate_nothing_changed_witness :
  ∃ rest,
    ldap.calls (snd (resourceLDAPGroupUpdate
                       classChangeData
                       (newConn exampleServer ())))
    = ldap.CallModify
        (ldap.mkModifyRequest "cn=mygroup,ou=users,dc=example,dc=com" []) :: rest.
Proof.
  destruct (resourceLDAPGroupUpdate_nothing_changed (S := exampleServer)
              classChangeData
              (newConn exampleServer ())
              eq_refl eq_refl eq_refl eq_refl eq_refl eq_refl eq_refl) as [rest Heq].
  exists rest. exact Heq.
Defined.

(** X2: an update sends one modify request.  When the directory refuses it,
    the update returns that error as it is, reads nothing back and leaves
    the resource data alone; when the directory accepts it, the outcome
    of the update is that of a read on the connection as the modify left
    it. *)
Theorem resourceLDAPGroupUpdate_outcome {S : ldap.Server} (d : ResourceData)
    (c : ldap.Conn S) (res : option error) (dir' : ldap.Directory S) :
  let request := ldap.mkModifyRequest (dn (new d)) (updateChanges d) in
  ldap.serveModify S request (ldap.dir c) = (res, dir') →
  let c' := ldap.mkConn dir' (ldap.calls c ++ [ldap.CallModify request]) in
  match res with
  | Some err => resourceLDAPGroupUpdate d c = (Some err, d, c')
  | None =>
      resourceLDAPGroupUpdate d c = resourceLDAPGroupRead d c'
      ∧ ldap.calls (snd (resourceLDAPGroupUpdate d c))
        = ldap.calls c ++ [ldap.CallModify request;
                           ldap.CallSearch (searchRequest (dn (new d)))]
  end.
Proof.
  intros request Hserve c'. rewrite update_unfold. unfold ldap.ConnModify.
  fold request. rewrite Hserve. fold c'. destruct res as [err|]; [reflexivity|].
  split; [reflexivity|]. rewrite read_calls. subst c'. cbn [ldap.calls].
  by rewrite <- app_assoc.
Qed.

Lemma resourceLDAPGroupUpdate_outcome_witness :
  ldap.calls (snd (resourceLDAPGroupUpdate scenarioData (newConn exampleServer ())))
  = [ldap.CallModify
       (ldap.mkModifyRequest "cn=mygroup,ou=users,dc=example,dc=com"
          (updateChanges scenarioData));
     ldap.CallSearch (searchRequest "cn=mygroup,ou=users,dc=example,dc=com")].
Proof.
  exact (proj2 (resourceLDAPGroupUpdate_outcome (S := exampleServer) scenarioData
                  (newConn exampleServer ()) None () eq_refl)).
Defined.

Lemma values_lookup (e e' : gmap string (gset string)) (a : string) :
  e' !! a = e !! a → directory.values e' a = directory.values e a.
Proof. unfold directory.values. by intros ->. Qed.

Lemma scalarChanges_apply d (e : gmap string (gset string)) :
  ∃ e', directory.applyChanges (scalarChanges d) e = Some e'
        ∧ (description (old d) ≠ description (new d) →
           directory.values e' "description" = {[description (new d)]})
        ∧ (gid_number (old d) ≠ gid_number (new d) →
           directory.values e' "gidNumber" = {[Itoa (gid_number (new d))]})
        ∧ ∀ a, a ≠ "description" → a ≠ "gidNumber" → e' !! a = e !! a.
Proof.
  unfold scalarChanges, HasChange_description, HasChange_gid_number.
  destruct (String.eqb_spec (description (old d)) (description (new d))) as [Hd|Hd];
    destruct (Z.eqb_spec (gid_number (old d)) (gid_number (new d))) as [Hg|Hg];
    cbn [negb app directory.applyChanges directory.applyChange
         ldap.Op ldap.Modification ldap.AttrType ldap.Vals];
    eexists; (split; [reflexivity|]); repeat split; try done.
  - intros _. rewrite values_insert_eq. set_solver.
  - intros a _ Ha. by rewrite lookup_insert_ne.
  - intros _. rewrite values_insert_eq. set_solver.
  - intros a Ha _. by rewrite lookup_insert_ne.
  - intros _. unfold directory.values. rewrite lookup_insert_ne by done.
    rewrite lookup_insert_eq. set_solver.
  - intros _. rewrite values_insert_eq. set_solver.
  - intros a Ha Hb. by rewrite !lookup_insert_ne.
Qed.

(** X3: when the generic attributes are unchanged, the changes of an update
    bring a directory entry that holds the previous values of the four
    member attributes to the desired state: the directory accepts every
    change, each member attribute ends with exactly its desired values, a
    changed description or gid_number ends as its one new value, and no
    other attribute of the entry is touched. *)
Theorem updateChanges_reach_desired_state (d : ResourceData)
    (e : gmap string (gset string)) :
  attributes (old d) = attributes (new d) →
  directory.values e "member" = member (old d) →
  directory.values e "memberUid" = member_uid (old d) →
  directory.values e "uniqueMember" = unique_member (old d) →
  directory.values e "memberURL" = member_url (old d) →
  ∃ e', directory.applyChanges (updateChanges d) e = Some e'
        ∧ directory.values e' "member" = member (new d)
        ∧ directory.values e' "memberUid" = member_uid (new d)
        ∧ directory.values e' "uniqueMember" = unique_member (new d)
        ∧ directory.values e' "memberURL" = member_url (new d)
        ∧ (description (old d) ≠ description (new d) →
           directory.values e' "description" = {[description (new d)]})
        ∧ (gid_number (old d) ≠ gid_number (new d) →
           directory.values e' "gidNumber" = {[Itoa (gid_number (new d))]})
        ∧ (∀ a, a ∉ ["description"; "gidNumber"; "member"; "memberUid";
                     "uniqueMember"; "memberURL"] → e' !! a = e !! a).
Proof.
  intros Hattrs Hm Hmu Hum Hurl.
  assert (Hbag : bagChanges d = []).
  { unfold bagChanges, HasChange_attributes. rewrite Hattrs.
    by rewrite bool_decide_eq_false_2 by (intros H; by apply H). }
  unfold updateChanges. rewrite Hbag, app_nil_r.
  destruct (scalarChanges_apply d e) as (e1 & Hrun1 & Hdesc & Hgid & Hoth1).
  rewrite applyChanges_app, Hrun1.
  destruct (setDelta_apply "member" (member (old d)) (member (new d)) e1)
    as (e2 & Hrun2 & Hval2 & Hoth2).
  { rewrite <- Hm. apply values_lookup, Hoth1; discriminate. }
  rewrite applyChanges_app, Hrun2.
  destruct (setDelta_apply "memberUid" (member_uid (old d)) (member_uid (new d)) e2)
    as (e3 & Hrun3 & Hval3 & Hoth3).
  { rewrite <- Hmu. rewrite (values_lookup e1 e2) by (apply Hoth2; discriminate).
    apply values_lookup, Hoth1; discriminate. }
  rewrite applyChanges_app, Hrun3.
  destruct (setDelta_apply "uniqueMember" (unique_member (old d)) (unique_member (new d)) e3)
    as (e4 & Hrun4 & Hval4 & Hoth4).
  { rewrite <- Hum. rewrite (values_lookup e2 e3) by (apply Hoth3; discriminate).
    rewrite (values_lookup e1 e2) by (apply Hoth2; discriminate).
    apply values_lookup, Hoth1; discriminate. }
  rewrite applyChanges_app, Hrun4.
  destruct (setDelta_apply "memberURL" (member_url (old d)) (member_url (new d)) e4)
    as (e5 & Hrun5 & Hval5 & Hoth5).
  { rewrite <- Hurl. rewrite (values_lookup e3 e4) by (apply Hoth4; discriminate).
    rewrite (values_lookup e2 e3) by (apply Hoth3; discriminate).
    rewrite (values_lookup e1 e2) by (apply Hoth2; discriminate).
    apply values_lookup, Hoth1; discriminate. }
  exists e5. split; [exact Hrun5|].
  assert (Hkeep : ∀ a, a ≠ "member" → a ≠ "memberUid" → a ≠ "uniqueMember" →
                       a ≠ "memberURL" → e5 !! a = e1 !! a).
  { intros a H1 H2 H3 H4. by rewrite Hoth5, Hoth4, Hoth3, Hoth2. }
  repeat split.
  - rewrite <- Hval2. rewrite (values_lookup e4 e5) by (apply Hoth5; discriminate).
    rewrite (values_lookup e3 e4) by (apply Hoth4; discriminate).
    apply values_lookup, Hoth3; discriminate.
  - rewrite <- Hval3. rewrite (values_lookup e4 e5) by (apply Hoth5; discriminate).
    apply values_lookup, Hoth4; discriminate.
  - rewrite <- Hval4. apply values_lookup, Hoth5; discriminate.
  - exact Hval5.
  - intros Hne. rewrite <- (Hdesc Hne). apply values_lookup, Hkeep; discriminate.
  - intros Hne. rewrite <- (Hgid Hne). apply values_lookup, Hkeep; discriminate.
  - intros a Ha. rewrite !not_elem_of_cons in Ha.
    destruct Ha as (H1 & H2 & H3 & H4 & H5 & H6 & _).
    rewrite Hkeep by done. by apply Hoth1.
Qed.

Lemma updateChanges_reach_desired_state_witness :
  ∃ e', directory.applyChanges (updateChanges scenarioData) scenarioEntry = Some e'
        ∧ directory.values e' "memberUid" = {["bob"; "carol"]}
        ∧ e' !! "cn" = Some {["mygroup"]}.
Proof.
  destruct (updateChanges_reach_desired_state scenarioData scenarioEntry
              eq_refl eq_refl eq_refl eq_refl eq_refl)
    as (e' & Hrun & _ & Hmu & _ & _ & _ & _ & Hoth).
  exists e'. split; [exact Hrun|]. split; [exact Hmu|].
  rewrite Hoth; [reflexivity|].
  apply (bool_decide_unpack _). vm_compute. exact I.
Defined.

(** ** Delete and import *)

(** X4: a delete sends one delete request, for the DN of the resource.  When
    the directory refuses it the error is returned as it is and the
    resource keeps its identity; when it succeeds the identity is
    cleared.  Nothing else of the resource data changes either way. *)
Theorem resourceLDAPGroupDelete_outcome {S : ldap.Server} (d : ResourceData)
    (c : ldap.Conn S) (res : option error) (dir' : ldap.Directory S) :
  ldap.serveDel S (dn (new d)) (ldap.dir c) = (res, dir') →
  let c' := ldap.mkConn dir' (ldap.calls c ++ [ldap.CallDel (dn (new d))]) in
  resourceLDAPGroupDelete d c
  = match res with
    | Some err => (Some err, d, c')
    | None => (None, mkResourceData "" (old d) (new d), c')
    end.
Proof.
  intros Hserve c'. unfold resourceLDAPGroupDelete, ldap.ConnDel. rewrite Hserve.
  by destruct res.
Qed.

Lemma resourceLDAPGroupDelete_outcome_witness :
  resourceLDAPGroupDelete scenarioData (newConn exampleServer ())
  = (None, mkResourceData "" (old scenarioData) (new scenarioData),
     ldap.mkConn (S := exampleServer) ()
       [ldap.CallDel "cn=mygroup,ou=users,dc=example,dc=com"]).
Proof.
  exact (resourceLDAPGroupDelete_outcome (S := exampleServer) scenarioData
           (newConn exampleServer ()) None () eq_refl).
Defined.

Lemma read_dn {S} d (c : ldap.Conn S) :
  dn (new (snd (fst (resourceLDAPGroupRead d c)))) = dn (new d).
Proof.
  unfold resourceLDAPGroupRead, ldap.ConnSearch.
  destruct (ldap.serveSearch S _ _) as [res dir'].
  destruct res as [err|sr].
  - destruct err; try done. by destruct (_ =? _)%N.
  - destruct (ldap.Entries sr) as [|entry rest]; [done|].
    destruct (negb _).
    + destruct (Atoi _); [done|].
      repeat match goal with |- context [(0 <? length ?l)%nat] =>
        destruct (0 <? length l)%nat end; reflexivity.
    + repeat match goal with |- context [(0 <? length ?l)%nat] =>
        destruct (0 <? length l)%nat end; reflexivity.
Qed.

(** X5: an import takes the identity of the resource for its DN: it searches
    the directory under that identity, with one search and no other
    call, and the data it returns has that DN.  It fails exactly when the
    read fails; in particular the import of an entry the directory does
    not hold (no such object, or no entry found) is no error: it returns
    the resource with its identity cleared. *)
Theorem resourceLDAPGroupImport_outcome {S : ldap.Server} (d : ResourceData)
    (c : ldap.Conn S) (res : error + ldap.SearchResult) (dir' : ldap.Directory S) :
  ldap.serveSearch S (searchRequest (Id d)) (ldap.dir c) = (res, dir') →
  let c' := ldap.mkConn dir' (ldap.calls c ++ [ldap.CallSearch (searchRequest (Id d))]) in
  snd (resourceLDAPGroupImport d c) = c'
  ∧ dn (new (snd (fst (resourceLDAPGroupImport d c)))) = Id d
  ∧ (∀ err, fst (fst (resourceLDAPGroupImport d c)) = inl err
            ↔ fst (fst (resourceLDAPGroupRead (Set_dn d (Id d)) c)) = Some err)
  ∧ (∀ ds, fst (fst (resourceLDAPGroupImport d c)) = inr ds →
           ds = [snd (fst (resourceLDAPGroupImport d c))])
  ∧ ((∃ msg, res = inl (LdapError ldap.LDAPResultNoSuchObject msg))
     ∨ (∃ sr, res = inr sr ∧ ldap.Entries sr = []) →
     resourceLDAPGroupImport d c
     = (inr [SetId (Set_dn d (Id d)) ""], SetId (Set_dn d (Id d)) "", c')).
Proof.
  intros Hserve c'.
  assert (Hdn : dn (new (Set_dn d (Id d))) = Id d) by reflexivity.
  assert (Hcalls := read_calls (Set_dn d (Id d)) c).
  assert (Hrdn := read_dn (Set_dn d (Id d)) c).
  assert (Hnf : (∃ msg, res = inl (LdapError ldap.LDAPResultNoSuchObject msg))
                ∨ (∃ sr, res = inr sr ∧ ldap.Entries sr = []) →
                resourceLDAPGroupRead (Set_dn d (Id d)) c
                = (None, SetId (Set_dn d (Id d)) "", c')).
  { intros Hcase. unfold resourceLDAPGroupRead, ldap.ConnSearch.
    fold (searchRequest (dn (new (Set_dn d (Id d))))). rewrite Hdn, Hserve.
    destruct Hcase as [[msg ->]|(sr & -> & ->)]; reflexivity. }
  assert (Hconn : snd (resourceLDAPGroupRead (Set_dn d (Id d)) c) = c').
  { unfold resourceLDAPGroupRead, ldap.ConnSearch.
    fold (searchRequest (dn (new (Set_dn d (Id d))))). rewrite Hdn, Hserve.
    destruct res as [err|sr].
    - destruct err; try done. by destruct (_ =? _)%N.
    - destruct (ldap.Entries sr) as [|entry rest]; [done|].
      destruct (negb _); [|done]. by destruct (Atoi _). }
  unfold resourceLDAPGroupImport.
  destruct (resourceLDAPGroupRead (Set_dn d (Id d)) c) as [[[err|] d'] c1] eqn:Hread;
    cbn [fst snd] in *; subst c1.
  - split; [done|]. split; [done|]. split; [|split].
    + intros e. split; congruence.
    + discriminate.
    + intros Hcase. discriminate (Hnf Hcase).
  - split; [done|]. split; [done|]. split; [|split].
    + intros e. split; discriminate.
    + by intros ds [= <-].
    + intros Hcase. specialize (Hnf Hcase). by injection Hnf as ->.
Qed.

Lemma resourceLDAPGroupImport_outcome_witness :
  let S := stubServer None (inl (LdapError 32 "No Such Object")) in
  let d := mkResourceData "cn=gone,dc=example,dc=com" (new noCNData) (new noCNData) in
  resourceLDAPGroupImport (S := S) d (newConn S ())
  = (inr [SetId (Set_dn d "cn=gone,dc=example,dc=com") ""],
     SetId (Set_dn d "cn=gone,dc=example,dc=com") "",
     ldap.mkConn (S := S) () [ldap.CallSearch (searchRequest "cn=gone,dc=example,dc=com")]).
Proof.
  intros S d.
  apply (proj2 (proj2 (proj2 (proj2
           (resourceLDAPGroupImport_outcome (S := S) d (newConn S ())
              (inl (LdapError 32 "No Such Object")) () eq_refl))))).
  left. by exists "No Such Object".
Defined.

(** ** Create: outcome and generic attributes *)

Lemma read_Id_found {S} d (c : ldap.Conn S) sr dir' entry rest :
  ldap.serveSearch S (searchRequest (dn (new d))) (ldap.dir c) = (inr sr, dir') →
  ldap.Entries sr = entry :: rest →
  Id (snd (fst (resourceLDAPGroupRead d c))) = Id d.
Proof.
  intros Hsearch Hentries. unfold resourceLDAPGroupRead, ldap.ConnSearch.
  fold (searchRequest (dn (new d))). rewrite Hsearch, Hentries.
  destruct (negb _).
  - destruct (Atoi _); [done|].
    repeat match goal with |- context [(0 <? length ?l)%nat] =>
      destruct (0 <? length l)%nat end; reflexivity.
  - repeat match goal with |- context [(0 <? length ?l)%nat] =>
      destruct (0 <? length l)%nat end; reflexivity.
Qed.

(** X6: a create that passes validation and derives its CN sends one add
    request.  When the directory refuses it, the create returns that
    error as it is, without identity and without reading back; when the
    directory accepts it, the create takes the DN for identity and its
    outcome is that of a read: the calls are the add and one search, and
    if that search finds the entry the identity stays the DN. *)
Theorem resourceLDAPGroupCreate_outcome {S : ldap.Server} (d : ResourceData)
    (c : ldap.Conn S) (cn : string) (res : option error) (dir' : ldap.Directory S) :
  validateObjectClasses (createObjectClasses d) d = [] →
  deriveCNFromDN (dn (new d)) = inr cn →
  ldap.serveAdd S (createRequest d cn) (ldap.dir c) = (res, dir') →
  let c1 := ldap.mkConn dir' (ldap.calls c ++ [ldap.CallAdd (createRequest d cn)]) in
  match res with
  | Some err => resourceLDAPGroupCreate d c = (Some err, d, c1)
  | None =>
      resourceLDAPGroupCreate d c = resourceLDAPGroupRead (SetId d (dn (new d))) c1
      ∧ ldap.calls (snd (resourceLDAPGroupCreate d c))
        = ldap.calls c ++ [ldap.CallAdd (createRequest d cn);
                           ldap.CallSearch (searchRequest (dn (new d)))]
      ∧ (∀ sr dir'' entry rest,
           ldap.serveSearch S (searchRequest (dn (new d))) dir' = (inr sr, dir'') →
           ldap.Entries sr = entry :: rest →
           Id (snd (fst (resourceLDAPGroupCreate d c))) = dn (new d))
  end.
Proof.
  intros Hval Hcn Hserve c1. rewrite create_unfold. cbv zeta. rewrite Hval, Hcn.
  cbn [length Nat.ltb Nat.leb]. unfold ldap.ConnAdd. rewrite Hserve. fold c1.
  destruct res as [err|]; [reflexivity|].
  split; [reflexivity|]. split.
  - rewrite read_calls. subst c1. cbn [ldap.calls SetId new]. by rewrite <- app_assoc.
  - intros sr dir'' entry rest Hsearch Hentries.
    by rewrite (read_Id_found (SetId d (dn (new d))) c1 sr dir'' entry rest).
Qed.

Lemma resourceLDAPGroupCreate_outcome_witness :
  Id (snd (fst (resourceLDAPGroupCreate (defaultClassData 1000) (newConn exampleServer ()))))
  = "cn=mygroup,ou=users,dc=example,dc=com".
Proof.
  exact (proj2 (proj2 (resourceLDAPGroupCreate_outcome (S := exampleServer)
                         (defaultClassData 1000) (newConn exampleServer ()) "mygroup"
                         None () eq_refl eq_refl eq_refl))
           (ldap.mkSearchResult [exampleEntry]) () exampleEntry [] eq_refl eq_refl).
Defined.

Lemma valuesOf_cons name n v l :
  valuesOf name ((n, v) :: l)
  = if decide (n = name) then v :: valuesOf name l else valuesOf name l.
Proof. unfold valuesOf. rewrite filter_cons. cbn [fst]. by destruct (decide (n = name)). Qed.

Lemma group_fold_lookup (l : list (string * string)) (m0 : gmap string (list string))
    (name : string) :
  fold_left
    (fun m attribute =>
       let '(n, value) := attribute in <[n := default [] (m !! n) ++ [value]]> m) l m0
    !! name
  = if decide (m0 !! name = None ∧ valuesOf name l = []) then None
    else Some (default [] (m0 !! name) ++ valuesOf name l).
Proof.
  revert m0. induction l as [|[n v] l IH]; intros m0; cbn [fold_left].
  - destruct (m0 !! name) as [vs|] eqn:Hm.
    + rewrite decide_False by (by intros [? _]). cbn. by rewrite app_nil_r.
    + by rewrite decide_True.
  - rewrite IH, valuesOf_cons. destruct (decide (n = name)) as [->|Hne].
    + rewrite lookup_insert_eq.
      destruct (decide (Some (default [] (m0 !! name) ++ [v]) = None ∧ valuesOf name l = []))
        as [[? _]|_]; [discriminate|].
      destruct (decide (m0 !! name = None ∧ v :: valuesOf name l = []))
        as [[_ ?]|_]; [discriminate|].
      cbn [default id]. by rewrite <- app_assoc.
    + rewrite lookup_insert_ne by done. reflexivity.
Qed.

Lemma groupByName_lookup l name :
  groupByName l !! name
  = if decide (valuesOf name l = []) then None else Some (valuesOf name l).
Proof.
  unfold groupByName. rewrite group_fold_lookup, lookup_empty. cbn [default app].
  destruct (decide (valuesOf name l = [])) as [Hv|Hv].
  - by rewrite decide_True.
  - by rewrite decide_False by (by intros [_ ?]).
Qed.

Lemma elem_of_valuesOf name v l : v ∈ valuesOf name l ↔ (name, v) ∈ l.
Proof.
  unfold valuesOf. rewrite list_elem_of_fmap. split.
  - intros ([n v'] & -> & Hin). apply list_elem_of_filter in Hin as [Hn Hin].
    cbn in Hn. by subst.
  - intros Hin. exists (name, v). split; [done|]. by apply list_elem_of_filter.
Qed.

Lemma fold_Attribute_attributes (l : list (string * list string)) req :
  ldap.Attributes
    (fold_left (fun request nv => ldap.AddRequest_Attribute request (fst nv) (snd nv)) l req)
  = ldap.Attributes req ++ map (fun nv => ldap.mkAttribute (fst nv) (snd nv)) l.
Proof.
  revert req. induction l as [|x l IH]; intros req; cbn [fold_left map].
  - by rewrite app_nil_r.
  - rewrite IH. cbn [ldap.AddRequest_Attribute ldap.Attributes]. by rewrite <- app_assoc.
Qed.

Lemma Forall_Attribute (P : ldap.Attribute → Prop) req t vs :
  P (ldap.mkAttribute t vs) → Forall P (ldap.Attributes req) →
  Forall P (ldap.Attributes (ldap.AddRequest_Attribute req t vs)).
Proof.
  intros HP Hall. cbn [ldap.AddRequest_Attribute ldap.Attributes].
  apply Forall_app. split; [done|]. by constructor.
Qed.

Lemma Forall_Attribute_if (P : ldap.Attribute → Prop) req t vs (b : bool) :
  P (ldap.mkAttribute t vs) → Forall P (ldap.Attributes req) →
  Forall P (ldap.Attributes (if b then ldap.AddRequest_Attribute req t vs else req)).
Proof. destruct b; [apply Forall_Attribute | done]. Qed.

Lemma elem_of_genericAttributes bag name vs :
  ldap.mkAttribute name vs ∈ genericAttributes bag
  ↔ vs ≠ [] ∧ vs = valuesOf name bag.
Proof.
  unfold genericAttributes. rewrite list_elem_of_fmap. split.
  - intros ([n vs'] & [= -> ->] & Hin). apply elem_of_map_to_list in Hin.
    rewrite groupByName_lookup in Hin.
    destruct (decide (valuesOf n bag = [])); [discriminate|]. by injection Hin as <-.
  - intros [Hne ->]. exists (name, valuesOf name bag). split; [done|].
    apply elem_of_map_to_list. rewrite groupByName_lookup. by rewrite decide_False.
Qed.

Lemma createRequest_split d cn :
  ∃ wellKnown,
    ldap.Attributes (createRequest d cn)
    = wellKnown ++ genericAttributes (elements (attributes (new d)))
    ∧ Forall (fun a => ldap.AType a ∈ handledNames) wellKnown.
Proof.
  set (bag := elements (attributes (new d))).
  unfold createRequest, GetOk_description, GetOk_gid_number, GetOk_set, GetOk_attributes.
  cbv zeta. fold bag.
  match goal with
  | |- context [fold_left _ (map_to_list _) ?r] => set (R := r)
  end.
  assert (HR : Forall (fun a => ldap.AType a ∈ handledNames) (ldap.Attributes R)).
  { subst R. unfold handledNames.
    do 6 (apply Forall_Attribute_if; [cbn; set_solver|]).
    do 2 (apply Forall_Attribute; [cbn; set_solver|]). constructor. }
  exists (ldap.Attributes R). split; [|exact HR].
  fold (groupByName bag).
  destruct (negb (bool_decide (attributes (new d) = ∅))) eqn:Hok.
  - destruct (0 <? length bag)%nat eqn:Hlen.
    + apply fold_Attribute_attributes.
    + destruct bag as [|x bag'] eqn:Hbag; [|discriminate Hlen].
      unfold genericAttributes. cbn. by rewrite app_nil_r.
  - apply negb_false_iff, bool_decide_eq_true in Hok.
    assert (Hnil : bag = []) by (subst bag; rewrite Hok; apply elements_empty).
    rewrite Hnil. unfold genericAttributes. cbn. by rewrite app_nil_r.
Qed.

(** X7: the add request of a create lists the well-known attributes first
    and then the generic ones, grouped by name: each name of the generic
    bag gets one attribute, which carries all the values the bag gives
    under that name and nothing else, and no attribute is sent without a
    value.  The bag is not filtered: a name with a dedicated path that
    also occurs in the bag is sent a second time. *)
Theorem createRequest_groups_generic_attributes (d : ResourceData) (cn : string) :
  ∃ wellKnown generic : list ldap.Attribute,
    ldap.Attributes (createRequest d cn) = wellKnown ++ generic
    ∧ Forall (fun a => ldap.AType a ∈ handledNames) wellKnown
    ∧ NoDup (map ldap.AType generic)
    ∧ (∀ name vs, ldap.mkAttribute name vs ∈ generic
                  ↔ vs ≠ [] ∧ vs = valuesOf name (elements (attributes (new d))))
    ∧ (∀ name v, (name, v) ∈ attributes (new d)
                 ↔ (∃ vs, ldap.mkAttribute name vs ∈ generic ∧ v ∈ vs))
    ∧ (∀ a, a ∈ generic → NoDup (ldap.AVals a)).
Proof.
  set (bag := elements (attributes (new d))).
  destruct (createRequest_split d cn) as (wellKnown & Heq & Hwk). fold bag in Heq.
  assert (Hgen := elem_of_genericAttributes bag).
  exists wellKnown, (genericAttributes bag). split; [exact Heq|]. split; [exact Hwk|].
  split; [|split; [exact Hgen|split]].
  - unfold genericAttributes. rewrite map_map. cbn [ldap.AType].
    apply (NoDup_fst_map_to_list (groupByName bag)).
  - intros name v. rewrite <- elem_of_elements. fold bag. rewrite <- elem_of_valuesOf. split.
    + intros Hin. exists (valuesOf name bag). split; [|done].
      apply Hgen. split; [|done]. intros Hnil. rewrite Hnil in Hin. by apply elem_of_nil in Hin.
    + intros (vs & Hin & Hv). apply Hgen in Hin as [_ ->]. done.
  - intros [name vs] Hin. apply Hgen in Hin as [_ ->]. cbn [ldap.AVals].
    unfold valuesOf. apply NoDup_fmap_2_strong.
    + intros [n1 v1] [n2 v2] [H1 _]%list_elem_of_filter [H2 _]%list_elem_of_filter Hv.
      cbn in *. congruence.
    + apply NoDup_filter, NoDup_elements.
Qed.

Lemma createRequest_groups_generic_attributes_witness :
  ∃ vs, ldap.mkAttribute "mail" vs ∈ ldap.Attributes (createRequest mailData "mygroup")
        ∧ "a@x.com" ∈ vs ∧ "b@x.com" ∈ vs.
Proof.
  destruct (createRequest_groups_generic_attributes mailData "mygroup")
    as (wellKnown & generic & Heq & _ & _ & Hgen & Hbag & _).
  assert (Ha : ("mail", "a@x.com") ∈ attributes (new mailData))
    by (apply (bool_decide_unpack _); vm_compute; exact I).
  assert (Hb : ("mail", "b@x.com") ∈ attributes (new mailData))
    by (apply (bool_decide_unpack _); vm_compute; exact I).
  apply Hbag in Ha as (vs & Hin & Hva). exists vs.
  split; [rewrite Heq; apply elem_of_app; by right|]. split; [exact Hva|].
  apply Hgen in Hin as [_ ->]. by apply elem_of_valuesOf, elem_of_elements.
Defined.

(** ** The gid_number between create and read *)

Ltac parse_digit :=
  cbn [parseDigits];
  match goal with
  | |- context [Z.of_nat (nat_of_ascii ?c)] =>
      let v := eval vm_compute in (Z.of_nat (nat_of_ascii c)) in
      change (Z.of_nat (nat_of_ascii c)) with v
  end;
  lazymatch goal with
  | |- (if ?b then _ else _) = _ =>
      let v := eval vm_compute in b in change b with v
  end;
  cbv iota.

Lemma parseDigits_uint_acc (u : Decimal.uint) (acc : positive) :
  parseDigits (NilEmpty.string_of_uint u) (Z.pos acc) = Some (Z.pos (Pos.of_uint_acc u acc)).
Proof.
  revert acc. induction u; intros acc; cbn [NilEmpty.string_of_uint Pos.of_uint_acc];
    [reflexivity|..];
    (parse_digit;
     match goal with |- parseDigits _ ?a = Some (Z.pos (Pos.of_uint_acc _ ?b)) =>
       replace a with (Z.pos b) by lia end; apply IHu).
Qed.

Lemma parseDigits_uint (u : Decimal.uint) :
  parseDigits (NilEmpty.string_of_uint u) 0 = Some (Z.of_N (Pos.of_uint u)).
Proof.
  induction u; cbn [NilEmpty.string_of_uint Pos.of_uint]; [reflexivity|..];
    parse_digit; first [exact IHu | apply (parseDigits_uint_acc u)].
Qed.

Lemma parseDigits_to_uint (p : positive) :
  parseDigits (NilEmpty.string_of_uint (Pos.to_uint p)) 0 = Some (Z.pos p).
Proof. by rewrite parseDigits_uint, DecimalPos.Unsigned.of_to. Qed.

Lemma string_of_uint_head (u : Decimal.uint) :
  u ≠ Decimal.Nil →
  ∃ c s, NilEmpty.string_of_uint u = String c s
         ∧ c ≠ "-"%char ∧ c ≠ "+"%char
         ∧ NilZero.string_of_uint u = String c s.
Proof.
  intros Hne. destruct u; [done|..]; cbn [NilEmpty.string_of_uint NilZero.string_of_uint];
    eexists _, _; (split; [reflexivity|]); repeat split; discriminate.
Qed.

Lemma Atoi_unsigned (c : ascii) (s : string) :
  c ≠ "-"%char → c ≠ "+"%char →
  Atoi (String c s)
  = match parseDigits (String c s) 0 with
    | None => inl (NumError "Atoi" (String c s) "invalid syntax")
    | Some n =>
        if (- 2 ^ 63 <=? n) && (n <=? 2 ^ 63 - 1) then inr n
        else inl (NumError "Atoi" (String c s) "value out of range")
    end.
Proof.
  intros Hm Hp. unfold Atoi.
  assert (Hsplit : match String c s with
                   | String "-" r => (true, r)
                   | String "+" r => (false, r)
                   | _ => (false, String c s)
                   end = (false, String c s)).
  { destruct c as [[] [] [] [] [] [] [] []]; try reflexivity; by (destruct Hm || destruct Hp). }
  rewrite Hsplit. reflexivity.
Qed.

Lemma Atoi_negative (c : ascii) (s : string) :
  Atoi (String "-" (String c s))
  = match parseDigits (String c s) 0 with
    | None => inl (NumError "Atoi" (String "-" (String c s)) "invalid syntax")
    | Some n =>
        if (- 2 ^ 63 <=? - n) && (- n <=? 2 ^ 63 - 1) then inr (- n)
        else inl (NumError "Atoi" (String "-" (String c s)) "value out of range")
    end.
Proof. reflexivity. Qed.

(** The decimal text [strconv.Itoa] writes for a 64-bit integer is read
    back by [strconv.Atoi] as that integer. *)
Lemma Atoi_Itoa (n : Z) :
  - 2 ^ 63 <= n <= 2 ^ 63 - 1 → Atoi (Itoa n) = inr n.
Proof.
  intros Hrange. unfold Itoa. destruct n as [|p|p]; [reflexivity|..];
    cbn [Z.to_int NilZero.string_of_int].
  - destruct (string_of_uint_head (Pos.to_uint p) (DecimalPos.Unsigned.to_uint_nonnil p))
      as (c & s & Hs & Hm & Hp & ->).
    rewrite Atoi_unsigned by done. rewrite <- Hs, parseDigits_to_uint.
    destruct (Z.leb_spec (- 2 ^ 63) (Z.pos p)); [|lia].
    destruct (Z.leb_spec (Z.pos p) (2 ^ 63 - 1)); [|lia]. reflexivity.
  - destruct (string_of_uint_head (Pos.to_uint p) (DecimalPos.Unsigned.to_uint_nonnil p))
      as (c & s & Hs & Hm & Hp & ->).
    rewrite Atoi_negative. rewrite <- Hs, parseDigits_to_uint.
    destruct (Z.leb_spec (- 2 ^ 63) (- Z.pos p)); [|lia].
    destruct (Z.leb_spec (- Z.pos p) (2 ^ 63 - 1)); [|lia]. reflexivity.
Qed.

Lemma Itoa_nonempty (n : Z) : - 2 ^ 63 <= n <= 2 ^ 63 - 1 → Itoa n ≠ "".
Proof. intros Hrange Heq. apply Atoi_Itoa in Hrange. rewrite Heq in Hrange. discriminate. Qed.

Lemma Attribute_elem_of a req t vs :
  a ∈ ldap.Attributes req → a ∈ ldap.Attributes (ldap.AddRequest_Attribute req t vs).
Proof. intros Hin. cbn [ldap.AddRequest_Attribute ldap.Attributes]. apply elem_of_app. by left. Qed.

Lemma Attribute_elem_of_if a req t vs (b : bool) :
  a ∈ ldap.Attributes req →
  a ∈ ldap.Attributes (if b then ldap.AddRequest_Attribute req t vs else req).
Proof. destruct b; [apply Attribute_elem_of | done]. Qed.

Lemma createRequest_gidNumber d cn :
  gid_number (new d) ≠ 0 →
  ldap.mkAttribute "gidNumber" [Itoa (gid_number (new d))]
  ∈ ldap.Attributes (createRequest d cn).
Proof.
  intros Hgid.
  unfold createRequest, GetOk_description, GetOk_gid_number, GetOk_set, GetOk_attributes.
  cbv zeta. rewrite (proj2 (Z.eqb_neq _ _) Hgid). cbn [negb].
  match goal with
  | |- context [fold_left _ (map_to_list ?m) ?r] => set (R := r); set (M := m)
  end.
  assert (HR : ldap.mkAttribute "gidNumber" [Itoa (gid_number (new d))] ∈ ldap.Attributes R).
  { subst R. do 4 apply Attribute_elem_of_if.
    cbn [ldap.AddRequest_Attribute ldap.Attributes]. apply elem_of_app. right. left. }
  destruct (negb (bool_decide (attributes (new d) = ∅))); [|exact HR].
  destruct (0 <? length (elements (attributes (new d))))%nat; [|exact HR].
  rewrite fold_Attribute_attributes. apply elem_of_app. by left.
Qed.

(** X9: a gid_number within the range of a 64-bit integer survives the way
    through the directory: a create sends it, when it is not zero, as
    the decimal text of [strconv.Itoa], and a read that finds this text
    as the gidNumber of the entry succeeds and stores the same number. *)
Theorem gid_number_round_trip (g : Z) :
  - 2 ^ 63 <= g <= 2 ^ 63 - 1 →
  (∀ d cn, gid_number (new d) = g → g ≠ 0 →
     ldap.mkAttribute "gidNumber" [Itoa g] ∈ ldap.Attributes (createRequest d cn))
  ∧ (∀ (S : ldap.Server) (d : ResourceData) (c : ldap.Conn S) sr dir' entry rest,
       ldap.serveSearch S (searchRequest (dn (new d))) (ldap.dir c) = (inr sr, dir') →
       ldap.Entries sr = entry :: rest →
       ldap.GetAttributeValue entry "gidNumber" = Itoa g →
       fst (fst (resourceLDAPGroupRead d c)) = None
       ∧ gid_number (new (snd (fst (resourceLDAPGroupRead d c)))) = g).
Proof.
  intros Hrange. split.
  - intros d cn <- Hne. by apply createRequest_gidNumber.
  - intros S d c sr dir' entry rest Hsearch Hentries Hgid.
    unfold resourceLDAPGroupRead, ldap.ConnSearch.
    fold (searchRequest (dn (new d))). rewrite Hsearch, Hentries, Hgid.
    rewrite (Atoi_Itoa g Hrange).
    rewrite (proj2 (String.eqb_neq _ _) (Itoa_nonempty g Hrange)). cbn [negb].
    repeat match goal with |- context [(0 <? length ?l)%nat] =>
      destruct (0 <? length l)%nat end; split; reflexivity.
Qed.

Lemma gid_number_round_trip_witness :
  ldap.mkAttribute "gidNumber" ["1000"]
  ∈ ldap.Attributes (createRequest (defaultClassData 1000) "mygroup")
  ∧ gid_number (new (snd (fst (resourceLDAPGroupRead (defaultClassData 0)
                                 (newConn exampleServer ()))))) = 1000.
Proof.
  assert (Hrange : - 2 ^ 63 <= 1000 <= 2 ^ 63 - 1) by lia.
  destruct (gid_number_round_trip 1000 Hrange) as [Hcreate Hread]. split.
  - apply (Hcreate (defaultClassData 1000) "mygroup"); [reflexivity|discriminate].
  - apply (Hread exampleServer (defaultClassData 0) (newConn exampleServer ())
             (ldap.mkSearchResult [exampleEntry]) () exampleEntry []); reflexivity.
Defined.

(** ** Read: what it keeps, and reading again *)

Lemma read_keeps_fields {S : ldap.Server} (d d' : ResourceData)
    (c c' : ldap.Conn S) (sr : ldap.SearchResult) (dir' : ldap.Directory S)
    (entry : ldap.Entry) (rest : list ldap.Entry) :
  ldap.serveSearch S (searchRequest (dn (new d))) (ldap.dir c) = (inr sr, dir') →
  ldap.Entries sr = entry :: rest →
  resourceLDAPGroupRead d c = (None, d', c') →
  description (new d') = ldap.GetAttributeValue entry "description"
  ∧ (ldap.GetAttributeValue entry "gidNumber" = "" →
     gid_number (new d') = gid_number (new d))
  ∧ (ldap.GetAttributeValues entry "objectClass" = [] →
     object_classes (new d') = object_classes (new d))
  ∧ (ldap.GetAttributeValues entry "memberUid" = [] →
     member_uid (new d') = member_uid (new d))
  ∧ (ldap.GetAttributeValues entry "uniqueMember" = [] →
     unique_member (new d') = unique_member (new d))
  ∧ (ldap.GetAttributeValues entry "memberURL" = [] →
     member_url (new d') = member_url (new d))
  ∧ (ldap.GetAttributeValues entry "member" = [] →
     member (new d') = member (new d))
  ∧ Id d' = Id d ∧ dn (new d') = dn (new d) ∧ old d' = old d.
Proof.
  intros Hsearch Hentries. unfold resourceLDAPGroupRead, ldap.ConnSearch.
  fold (searchRequest (dn (new d))). rewrite Hsearch, Hentries.
  destruct (String.eqb_spec (ldap.GetAttributeValue entry "gidNumber") "") as [Hg|Hg];
    cbn [negb].
  - intros [= <- <-].
    destruct (ldap.GetAttributeValues entry "objectClass"),
             (ldap.GetAttributeValues entry "memberUid"),
             (ldap.GetAttributeValues entry "uniqueMember"),
             (ldap.GetAttributeValues entry "memberURL"),
             (ldap.GetAttributeValues entry "member");
      cbn [length Nat.ltb Nat.leb]; repeat split; done.
  - destruct (Atoi _) as [err|gid]; [discriminate|].
    intros [= <- <-].
    destruct (ldap.GetAttributeValues entry "objectClass"),
             (ldap.GetAttributeValues entry "memberUid"),
             (ldap.GetAttributeValues entry "uniqueMember"),
             (ldap.GetAttributeValues entry "memberURL"),
             (ldap.GetAttributeValues entry "member");
      cbn [length Nat.ltb Nat.leb]; repeat split; done.
Qed.

(** X10: what a read that finds an entry and succeeds does to each
    field.  The description is always overwritten, with the empty string
    when the entry has none, and the generic attributes are always
    replaced by the bag built from the entry.  The gid_number, the
    object classes, member_uid, unique_member and member_url keep the
    value they had before the read when the entry carries no value of
    their attribute; so does member when the entry carries no member
    value, and when it carries one member takes the memberURL values of
    the entry, which may be none.  The identity, the DN and the prior
    state are left as they were. *)
Theorem resourceLDAPGroupRead_keeps_absent {S : ldap.Server} (d d' : ResourceData)
    (c c' : ldap.Conn S) (sr : ldap.SearchResult) (dir' : ldap.Directory S)
    (entry : ldap.Entry) (rest : list ldap.Entry) :
  ldap.serveSearch S (searchRequest (dn (new d))) (ldap.dir c) = (inr sr, dir') →
  ldap.Entries sr = entry :: rest →
  resourceLDAPGroupRead d c = (None, d', c') →
  description (new d') = ldap.GetAttributeValue entry "description"
  ∧ (ldap.GetAttributeValue entry "gidNumber" = "" →
     gid_number (new d') = gid_number (new d))
  ∧ (ldap.GetAttributeValues entry "objectClass" = [] →
     object_classes (new d') = object_classes (new d))
  ∧ (ldap.GetAttributeValues entry "memberUid" = [] →
     member_uid (new d') = member_uid (new d))
  ∧ (ldap.GetAttributeValues entry "uniqueMember" = [] →
     unique_member (new d') = unique_member (new d))
  ∧ (ldap.GetAttributeValues entry "memberURL" = [] →
     member_url (new d') = member_url (new d))
  ∧ (ldap.GetAttributeValues entry "member" = [] →
     member (new d') = member (new d))
  ∧ Id d' = Id d ∧ dn (new d') = dn (new d) ∧ old d' = old d
  ∧ attributes (new d') = decodeBag (dn (new d)) (ldap.EntryAttributes entry)
  ∧ (ldap.GetAttributeValues entry "member" ≠ [] →
     member (new d') = list_to_set (ldap.GetAttributeValues entry "memberURL")).
Proof.
  intros Hsearch Hentries Hread.
  destruct (read_keeps_fields d d' c c' sr dir' entry rest Hsearch Hentries Hread)
    as (H1 & H2 & H3 & H4 & H5 & H6 & H7 & H8 & H9 & H10).
  destruct (read_found d c sr dir' entry rest d' c' Hsearch Hentries Hread)
    as (Hattrs & _).
  repeat (split; [assumption|]).
  intros Hne. by apply (read_member_state d c sr dir' entry rest d' c').
Qed.

Lemma resourceLDAPGroupRead_keeps_absent_witness :
  let d' := snd (fst (resourceLDAPGroupRead scenarioData (newConn exampleServer ()))) in
  description (new d') = ""
  ∧ member_uid (new d') = {["bob"; "carol"]}.
Proof.
  intros d'.
  assert (Hread : resourceLDAPGroupRead scenarioData (newConn exampleServer ())
                  = (None, d', snd (resourceLDAPGroupRead scenarioData
                                      (newConn exampleServer ()))))
    by (vm_compute; reflexivity).
  destruct (resourceLDAPGroupRead_keeps_absent (S := exampleServer) scenarioData d'
              (newConn exampleServer ()) _ (ldap.mkSearchResult [exampleEntry]) ()
              exampleEntry [] eq_refl eq_refl Hread)
    as (Hdesc & _ & _ & Hmu & _).
  split; [exact Hdesc|]. exact (Hmu eq_refl).
Defined.

(** X11: a read is idempotent: reading again, the directory answering with
    the same entries, leaves the state of the first read as it is. *)
Theorem resourceLDAPGroupRead_idempotent {S : ldap.Server} (d d' : ResourceData)
    (c c' c2 : ldap.Conn S) (sr : ldap.SearchResult) (dir' dir2 : ldap.Directory S)
    (entry : ldap.Entry) (rest : list ldap.Entry) :
  ldap.serveSearch S (searchRequest (dn (new d))) (ldap.dir c) = (inr sr, dir') →
  ldap.serveSearch S (searchRequest (dn (new d))) (ldap.dir c2) = (inr sr, dir2) →
  ldap.Entries sr = entry :: rest →
  resourceLDAPGroupRead d c = (None, d', c') →
  resourceLDAPGroupRead d' c2
  = (None, d',
     ldap.mkConn dir2 (ldap.calls c2 ++ [ldap.CallSearch (searchRequest (dn (new d)))])).
Proof.
  intros Hsearch Hsearch2 Hentries Hread.
  assert (Hdn : dn (new d') = dn (new d)).
  { rewrite <- (read_dn d c). by rewrite Hread. }
  revert Hread. unfold resourceLDAPGroupRead, ldap.ConnSearch.
  fold (searchRequest (dn (new d))). fold (searchRequest (dn (new d'))).
  rewrite Hdn, Hsearch, Hsearch2, Hentries.
  destruct (negb (String.eqb (ldap.GetAttributeValue entry "gidNumber") "")).
  - destruct (Atoi _) as [err|gid]; [discriminate|].
    intros [= <- <-].
    repeat match goal with |- context [(0 <? length ?l)%nat] =>
      destruct (0 <? length l)%nat end; reflexivity.
  - intros [= <- <-].
    repeat match goal with |- context [(0 <? length ?l)%nat] =>
      destruct (0 <? length l)%nat end; reflexivity.
Qed.

Lemma resourceLDAPGroupRead_idempotent_witness :
  let c := newConn exampleServer () in
  let d' := snd (fst (resourceLDAPGroupRead scenarioData c)) in
  resourceLDAPGroupRead d' c
  = (None, d',
     ldap.mkConn (S := exampleServer) ()
       [ldap.CallSearch (searchRequest "cn=mygroup,ou=users,dc=example,dc=com")]).
Proof.
  intros c d'.
  assert (Hread : resourceLDAPGroupRead scenarioData c
                  = (None, d', snd (resourceLDAPGroupRead scenarioData c)))
    by (vm_compute; reflexivity).
  exact (resourceLDAPGroupRead_idempotent (S := exampleServer) scenarioData d' c _ c
           (ldap.mkSearchResult [exampleEntry]) () () exampleEntry []
           eq_refl eq_refl eq_refl Hread).
Defined.

(** X12: a read that finds an entry whose gidNumber is not the decimal text
    of a 64-bit integer fails with the error of the conversion.  By then
    it has overwritten the description and nothing else: the member
    sets, the object classes and the generic attributes of the entry are
    not stored. *)
Theorem resourceLDAPGroupRead_bad_gidNumber {S : ldap.Server} (d : ResourceData)
    (c : ldap.Conn S) (sr : ldap.SearchResult) (dir' : ldap.Directory S)
    (entry : ldap.Entry) (rest : list ldap.Entry) (err : error) :
  ldap.serveSearch S (searchRequest (dn (new d))) (ldap.dir c) = (inr sr, dir') →
  ldap.Entries sr = entry :: rest →
  ldap.GetAttributeValue entry "gidNumber" ≠ "" →
  Atoi (ldap.GetAttributeValue entry "gidNumber") = inl err →
  resourceLDAPGroupRead d c
  = (Some err,
     Set_description d (ldap.GetAttributeValue entry "description"),
     ldap.mkConn dir' (ldap.calls c ++ [ldap.CallSearch (searchRequest (dn (new d)))])).
Proof.
  intros Hsearch Hentries Hne Hatoi. unfold resourceLDAPGroupRead, ldap.ConnSearch.
  fold (searchRequest (dn (new d))). rewrite Hsearch, Hentries.
  rewrite (proj2 (String.eqb_neq _ _) Hne). cbn [negb]. rewrite Hatoi. reflexivity.
Qed.

Lemma resourceLDAPGroupRead_bad_gidNumber_witness :
  resourceLDAPGroupRead scenarioData (newConn badGidServer ())
  = (Some (NumError "Atoi" "12a" "invalid syntax"),
     Set_description scenarioData "My Group",
     ldap.mkConn (S := badGidServer) ()
       [ldap.CallSearch (searchRequest "cn=mygroup,ou=users,dc=example,dc=com")]).
Proof.
  apply (resourceLDAPGroupRead_bad_gidNumber (S := badGidServer) scenarioData
           (newConn badGidServer ()) (ldap.mkSearchResult [badGidEntry]) ()
           badGidEntry []); try reflexivity.
  discriminate.
Defined.

(** ** The CN of a DN, further *)

Lemma containsByte_sliceFrom (b : ascii) (n : nat) (s : string) :
  containsByte b s = false → containsByte b (sliceFrom n s) = false.
Proof.
  revert s. induction n as [|n IH]; intros s Hs; [done|].
  destruct s as [|c s]; [done|]. cbn [sliceFrom]. apply IH.
  cbn [containsByte] in Hs. by apply orb_false_iff in Hs as [_ ?].
Qed.

(** X13: the derivation of the CN has one error only, that no CN was found:
    it never reports an invalid format, not even for the empty DN.  A CN
    it derives never holds a comma, since the DN is cut at its first
    comma, escaped or not. *)
Theorem deriveCNFromDN_error_and_comma (dnv : string) :
  (∀ err, deriveCNFromDN dnv = inl err → err = Errorf "CN not found in DN" [])
  ∧ (∀ cn, deriveCNFromDN dnv = inr cn → containsByte "," cn = false).
Proof.
  destruct (FirstComponent_exists dnv) as [comp Hfirst].
  destruct (SplitN2_first dnv comp Hfirst) as [tl Hsplit].
  assert (Hcomp : containsByte "," comp = false) by (by destruct Hfirst).
  unfold deriveCNFromDN. rewrite Hsplit.
  destruct (HasPrefix (ToUpper comp) "CN="); split; try discriminate.
  - intros cn Heq. assert (Hcn : cn = sliceFrom 3 comp) by congruence.
    rewrite Hcn. by apply containsByte_sliceFrom.
  - by intros err [= <-].
Qed.

Lemma deriveCNFromDN_error_and_comma_witness :
  deriveCNFromDN "" = inl (Errorf "CN not found in DN" [])
  ∧ containsByte "," "Doe\" = false
  ∧ deriveCNFromDN "cn=Doe\, John,ou=users,dc=example,dc=com" = inr "Doe\".
Proof.
  destruct (deriveCNFromDN_error_and_comma "") as [Herr _].
  destruct (deriveCNFromDN_error_and_comma "cn=Doe\, John,ou=users,dc=example,dc=com")
    as [_ Hcn].
  split; [|split].
  - destruct (deriveCNFromDN "") as [err|cn] eqn:Hd; [|discriminate Hd].
    by rewrite (Herr err eq_refl).
  - apply Hcn. reflexivity.
  - reflexivity.
Defined.

(** * The provider and the client *)

(** ** Validation of attribute values *)

Lemma validate_loop_spec (EqualFold : string → string → bool)
    (invalidValues : list string) (l : list (string * string)) :
  let loop :=
    fix loop (attributes : list (string * string)) : option error :=
      match attributes with
      | [] => None
      | (name, value) :: rest =>
          if existsb (fun invalid => EqualFold value invalid) invalidValues
          then Some (Errorf "attribute %q has invalid value '%s'"
                       [ArgString name; ArgString value])
          else loop rest
      end in
  (loop l = None
   ↔ ∀ name value invalid, (name, value) ∈ l → invalid ∈ invalidValues →
                           EqualFold value invalid = false)
  ∧ (∀ err, loop l = Some err →
       ∃ name value invalid,
         (name, value) ∈ l ∧ invalid ∈ invalidValues ∧ EqualFold value invalid = true
         ∧ err = Errorf "attribute %q has invalid value '%s'"
                   [ArgString name; ArgString value]).
Proof.
  intros loop. induction l as [|[n v] l [IH1 IH2]]; cbn [loop].
  - split; [split; [intros _ ? ? ? Hin; by apply elem_of_nil in Hin | done]|discriminate].
  - fold loop. destruct (existsb _ invalidValues) eqn:Hex.
    + apply existsb_exists in Hex as (i & Hi & Hfold). apply list_elem_of_In in Hi.
      split.
      * split; [discriminate|]. intros Hall.
        rewrite (Hall n v i) in Hfold; [discriminate|left|done].
      * intros err [= <-]. exists n, v, i. repeat split; [left|done|done].
    + split.
      * rewrite IH1. split.
        -- intros Hall name value invalid [[= -> ->]|Hin]%elem_of_cons Hi.
           ++ destruct (EqualFold v invalid) eqn:Hf; [|done].
              assert (existsb (fun invalid => EqualFold v invalid) invalidValues = true)
                by (apply existsb_exists; exists invalid; by rewrite <- list_elem_of_In).
              congruence.
           ++ by apply (Hall name value).
        -- intros Hall name value invalid Hin Hi.
           apply (Hall name value invalid); [by right|done].
      * intros err Herr. destruct (IH2 err Herr) as (name & value & i & Hin & ?).
        exists name, value, i. split; [by right|done].
Qed.

(** X14: the validation of attribute values accepts the desired state exactly
    when no value of a generic attribute equals, case folded, an invalid
    value; when it rejects, its error names an attribute of the state and
    the offending value.  Attribute names play no part, and with nothing
    declared invalid every state is accepted. *)
Theorem validateAttributes_rejects_invalid_values (EqualFold : string → string → bool)
    (d : ResourceData) (invalidValues : list string) :
  (validateAttributes EqualFold d invalidValues = None
   ↔ ∀ name value invalid,
       (name, value) ∈ attributes (new d) → invalid ∈ invalidValues →
       EqualFold value invalid = false)
  ∧ (∀ err, validateAttributes EqualFold d invalidValues = Some err →
       ∃ name value invalid,
         (name, value) ∈ attributes (new d) ∧ invalid ∈ invalidValues
         ∧ EqualFold value invalid = true
         ∧ err = Errorf "attribute %q has invalid value '%s'"
                   [ArgString name; ArgString value])
  ∧ validateAttributes EqualFold d [] = None.
Proof.
  assert (Hmain : ∀ inv,
    (validateAttributes EqualFold d inv = None
     ↔ ∀ name value invalid,
         (name, value) ∈ attributes (new d) → invalid ∈ inv →
         EqualFold value invalid = false)
    ∧ (∀ err, validateAttributes EqualFold d inv = Some err →
         ∃ name value invalid,
           (name, value) ∈ attributes (new d) ∧ invalid ∈ inv
           ∧ EqualFold value invalid = true
           ∧ err = Errorf "attribute %q has invalid value '%s'"
                     [ArgString name; ArgString value])).
  { intros inv. unfold validateAttributes, GetOk_attributes.
    destruct (decide (attributes (new d) = ∅)) as [Hempty|Hne].
    - rewrite (bool_decide_eq_true_2 _ Hempty). cbn [negb]. rewrite Hempty.
      split; [|discriminate]. split; [|done]. intros _ ? ? ? Hin. set_solver.
    - rewrite (bool_decide_eq_false_2 _ Hne). cbn [negb].
      destruct (validate_loop_spec EqualFold inv (elements (attributes (new d))))
        as [H1 H2].
      split.
      + rewrite H1. split; intros Hall name value invalid Hin Hi.
        * apply (Hall name value invalid); [by apply elem_of_elements|done].
        * apply (Hall name value invalid); [by apply elem_of_elements in Hin|done].
      + intros err Herr. destruct (H2 err Herr) as (name & value & i & Hin & ?).
        exists name, value, i. split; [by apply elem_of_elements|done]. }
  destruct (Hmain invalidValues) as [H1 H2]. split; [exact H1|]. split; [exact H2|].
  apply (Hmain []). intros ? ? ? _ Hin. by apply elem_of_nil in Hin.
Qed.

Lemma validateAttributes_rejects_invalid_values_witness :
  validateAttributes asciiEqualFold passwordData ["changeme"]
  = Some (Errorf "attribute %q has invalid value '%s'"
            [ArgString "userPassword"; ArgString "ChangeMe"]).
Proof.
  destruct (validateAttributes_rejects_invalid_values asciiEqualFold passwordData ["changeme"])
    as (Hnone & Herr & _).
  destruct (validateAttributes asciiEqualFold passwordData ["changeme"]) as [err|] eqn:Hv.
  - destruct (Herr err eq_refl) as (name & value & invalid & Hin & Hi & Hfold & ->).
    apply list_elem_of_singleton in Hi as ->.
    assert (Hcase : (name, value) = ("mail", "a@x.com")
                    ∨ (name, value) = ("userPassword", "ChangeMe")).
    { unfold passwordData in Hin. cbn [new attributes] in Hin.
      apply elem_of_union in Hin as [Hin|Hin]; apply elem_of_singleton in Hin; auto. }
    destruct Hcase as [[= -> ->]|[= -> ->]]; [discriminate Hfold|reflexivity].
  - exfalso. assert (Hf := proj1 Hnone eq_refl "userPassword" "ChangeMe" "changeme").
    assert (Hin : ("userPassword", "ChangeMe") ∈ attributes (new passwordData))
      by (apply (bool_decide_unpack _); vm_compute; exact I).
    specialize (Hf Hin (list_elem_of_here _ _)). discriminate Hf.
Defined.

(** ** Dialling and binding *)

(** X15: with TLS asked for, dialling is one TLS dial to [host:port], its
    certificate check governed by the insecure flag, and StartTLS plays
    no part even when set.  Without TLS it is one plain dial; StartTLS,
    when set, then upgrades the connection without ever verifying the
    certificate, whatever the insecure flag says, and a failure of the
    upgrade is returned without closing the connection dialled. *)
Theorem dial_tls_policy {N : client.Network} (c : client.Config) (n : client.Net N) :
  let uri := client.LDAPHost c +:+ ":" +:+ Itoa (client.LDAPPort c) in
  (client.TLS c = true →
     client.events (snd (client.dial c n))
     = client.events n
       ++ [client.EvDialTLS "tcp" uri
             (client.mkTlsConfig (client.LDAPHost c) (client.TLSInsecure c))])
  ∧ (client.TLS c = false →
     ∃ rest, client.events (snd (client.dial c n))
             = client.events n ++ client.EvDial "tcp" uri :: rest
             ∧ (rest = [] ∨ rest = [client.EvStartTLS (client.mkTlsConfig "" true)])
             ∧ (client.StartTLS c = false → rest = [])
             ∧ (client.StartTLS c = true →
                (∃ conn, fst (client.dial c n) = inr conn) →
                rest = [client.EvStartTLS (client.mkTlsConfig "" true)])).
Proof.
  intros uri. unfold client.dial. fold uri. split; intros Htls; rewrite Htls.
  - unfold client.DialTLS. by destruct (client.netDialTLS N _ _ _ _).
  - unfold client.Dial. destruct (client.netDial N _ _ _) as [[err|conn] w].
    + exists []. cbn. repeat split; auto. by intros _ [conn [=]].
    + destruct (client.StartTLS c).
      * unfold client.ConnStartTLS. cbn [client.world client.events].
        destruct (client.netStartTLS N _ _ _) as [[err|] w'];
          (eexists; cbn [snd client.events]; rewrite <- app_assoc;
           split; [reflexivity|]; repeat split; auto; discriminate).
      * exists []. cbn. repeat split; auto. discriminate.
Qed.

Lemma dial_tls_policy_witness :
  client.events (snd (client.dial (N := stubNetwork None) (exampleConfig true false false)
                        (client.mkNet (N := stubNetwork None) () [])))
  = [client.EvDial "tcp" "localhost:389";
     client.EvStartTLS (client.mkTlsConfig "" true)].
Proof.
  destruct (proj2 (dial_tls_policy (N := stubNetwork None) (exampleConfig true false false)
                     (client.mkNet (N := stubNetwork None) () [])) eq_refl)
    as (rest & Hev & _ & _ & Hstart).
  rewrite Hev. rewrite (Hstart eq_refl); [reflexivity|]. by exists 1%nat.
Defined.

(** X16: dialling and binding returns a connection only when the dial and the
    bind, with the configured user and password, both succeeded, and it
    then leaves the connection open.  A failed dial is returned as it is,
    with no bind attempted; a failed bind closes the connection, as the
    last thing done, and its error is returned. *)
Theorem DialAndBind_outcome {N : client.Network} (c : client.Config) (n n1 : client.Net N)
    (res : error + client.Handle N) :
  client.dial c n = (res, n1) →
  match res with
  | inl err => client.DialAndBind c n = (inl err, n1)
  | inr conn =>
      ∀ bindErr w,
        client.netBind N conn (client.BindUser c) (client.BindPassword c) (client.world n1)
          = (bindErr, w) →
        match bindErr with
        | Some err =>
            client.DialAndBind c n
            = (inl err,
               client.mkNet (client.netClose N conn w)
                 (client.events n1
                  ++ [client.EvBind (client.BindUser c) (client.BindPassword c);
                      client.EvClose]))
        | None =>
            client.DialAndBind c n
            = (inr conn,
               client.mkNet w
                 (client.events n1
                  ++ [client.EvBind (client.BindUser c) (client.BindPassword c)]))
        end
  end.
Proof.
  intros Hdial. unfold client.DialAndBind. rewrite Hdial.
  destruct res as [err|conn]; [reflexivity|].
  intros bindErr w Hbind. unfold client.ConnBind. rewrite Hbind.
  destruct bindErr as [err|]; [|reflexivity].
  unfold client.ConnClose. cbn [client.world client.events].
  by rewrite <- app_assoc.
Qed.

Lemma DialAndBind_outcome_witness :
  client.DialAndBind (N := stubNetwork (Some (LdapError 49 "Invalid Credentials")))
    (exampleConfig false true false)
    (client.mkNet (N := stubNetwork (Some (LdapError 49 "Invalid Credentials"))) () [])
  = (inl (LdapError 49 "Invalid Credentials"),
     client.mkNet (N := stubNetwork (Some (LdapError 49 "Invalid Credentials"))) ()
       [client.EvDialTLS "tcp" "localhost:389" (client.mkTlsConfig "localhost" false);
        client.EvBind "cn=admin,dc=example,dc=com" "admin";
        client.EvClose]).
Proof.
  set (N := stubNetwork (Some (LdapError 49 "Invalid Credentials"))).
  set (n := client.mkNet (N := N) () []).
  exact (DialAndBind_outcome (N := N) (exampleConfig false true false) n
           (snd (client.dial (exampleConfig false true false) n)) (inr 1%nat) eq_refl
           (Some (LdapError 49 "Invalid Credentials")) () eq_refl).
Defined.

(** ** The generic bag between create and read *)

(** X8: reading back what a create sent: if the directory returns the
    attributes of the add request as they were sent, the generic bag the
    read builds holds exactly the entries of the desired bag whose name
    has no dedicated path and which are not taken for the RDN (the only
    value under their name, with [name=value] a prefix of the DN).  So a
    bag without such entries comes back unchanged, and an entry under a
    name like gidNumber or member does not come back at all. *)
Theorem generic_bag_round_trip (d : ResourceData) (cn dnv : string) :
  let sent := map asWire (ldap.Attributes (createRequest d cn)) in
  (∀ name v,
     (name, v) ∈ decodeBag dnv sent
     ↔ (name, v) ∈ attributes (new d) ∧ (name ∉ handledNames)
       ∧ ¬ (valuesOf name (elements (attributes (new d))) = [v]
            ∧ HasPrefix dnv (name +:+ "=" +:+ v) = true))
  ∧ ((∀ name v, (name, v) ∈ attributes (new d) →
                (name ∉ handledNames) ∧ HasPrefix dnv (name +:+ "=" +:+ v) = false) →
     decodeBag dnv sent = attributes (new d)).
Proof.
  intros sent. set (bag := elements (attributes (new d))).
  destruct (createRequest_split d cn) as (wellKnown & Heq & Hwk). fold bag in Heq.
  assert (Hmain : ∀ name v,
     (name, v) ∈ decodeBag dnv sent
     ↔ (name, v) ∈ attributes (new d) ∧ (name ∉ handledNames)
       ∧ ¬ (valuesOf name bag = [v] ∧ HasPrefix dnv (name +:+ "=" +:+ v) = true)).
  { intros name v. rewrite elem_of_decodeBag. split.
    - intros (a & Ha & Hname & Hv & Hkept). subst sent.
      apply list_elem_of_fmap_1 in Ha as ([n vs] & -> & Hb).
      cbn [asWire ldap.Name ldap.Values ldap.AType ldap.AVals] in *. subst n.
      apply kept_true in Hkept as [Hnh Hrdn]. cbn [ldap.Name] in Hnh.
      rewrite Heq in Hb. apply elem_of_app in Hb as [Hb|Hb].
      + rewrite Forall_forall in Hwk. by destruct (Hnh (Hwk _ Hb)).
      + apply elem_of_genericAttributes in Hb as [Hne ->].
        split; [by apply elem_of_elements, elem_of_valuesOf|]. split; [done|].
        intros [Hone Hprefix]. unfold isRDN, asWire in Hrdn.
        cbn [ldap.Values ldap.Name ldap.AType ldap.AVals] in Hrdn.
        rewrite Hone in Hrdn. congruence.
    - intros (Hin & Hnh & Hnrdn).
      assert (Hv : v ∈ valuesOf name bag) by (by apply elem_of_valuesOf, elem_of_elements).
      exists (asWire (ldap.mkAttribute name (valuesOf name bag))).
      split; [|split; [done|split; [done|]]].
      + subst sent. apply list_elem_of_fmap_2. rewrite Heq. apply elem_of_app. right.
        apply elem_of_genericAttributes. split; [|done].
        intros Hnil. rewrite Hnil in Hv. by apply elem_of_nil in Hv.
      + apply kept_true. split; [done|]. unfold isRDN. cbn [asWire ldap.Values ldap.Name
          ldap.AType ldap.AVals].
        destruct (valuesOf name bag) as [|v' [|v'' vs]] eqn:Hvs; [done| |done].
        apply list_elem_of_singleton in Hv as ->.
        destruct (HasPrefix dnv (name +:+ "=" +:+ v')) eqn:Hp; [|done].
        by destruct Hnrdn. }
  split; [exact Hmain|].
  intros Hclean. apply set_eq. intros [name v]. rewrite Hmain. split.
  - by intros (? & _).
  - intros Hin. destruct (Hclean name v Hin) as [Hnh Hp].
    split; [done|]. split; [done|]. intros [_ Hp']. congruence.
Qed.

Lemma generic_bag_round_trip_witness :
  decodeBag "cn=mygroup,ou=users,dc=example,dc=com"
    (map asWire (ldap.Attributes (createRequest mailData "mygroup")))
  = attributes (new mailData).
Proof.
  apply (proj2 (generic_bag_round_trip mailData "mygroup"
                  "cn=mygroup,ou=users,dc=example,dc=com")).
  intros name v Hin.
  assert (Hcase : (name, v) = ("mail", "a@x.com") ∨ (name, v) = ("mail", "b@x.com")).
  { unfold mailData in Hin. cbn [new attributes] in Hin.
    apply elem_of_union in Hin as [Hin|Hin]; apply elem_of_singleton in Hin; auto. }
  destruct Hcase as [[= -> ->]|[= -> ->]];
    (split; [apply (bool_decide_unpack _); vm_compute; exact I | reflexivity]).
Defined.
